(** * voxblox: the block-hashed [Layer] of [voxblox/core/layer.h]

    A shallow embedding of [Layer<VoxelType>]: its geometry fields, the
    hash map from block index to block handle, and every inline member
    function of the header, run in a state made of the layer, the free
    store of blocks and the log.  The arithmetic of [FloatingPoint] is an
    interface with two instances: exact rationals and IEEE-754 binary
    formats (round to nearest even), so that each statement says which
    arithmetic it is about.  The parts of voxblox the header only
    declares or includes (blocks, voxels, the update rule of the
    integrator, the persistence codec) follow the specification and are
    marked as such. *)

From Stdlib Require Import ZArith QArith Qcanon Qround Lia String.
From Stdlib Require Import Lqa.
From Stdlib.Floats Require Import SpecFloat.
From stdpp Require Import base option list gmap.

Local Open Scope Z_scope.

(* ===================================================================== *)
(** ** FloatingPoint arithmetic *)
(* ===================================================================== *)

(** The operations [layer.h] performs on [FloatingPoint] values, plus the
    ones the merge rule of the integrator needs.  [fp_recip x] is the C++
    expression [1.0 / x] stored back into a [FloatingPoint]; [fp_val] is
    the real number a value denotes (used to state exactness only). *)
Class FloatingPointArith := {
  FloatingPoint : Type;
  fp_zero : FloatingPoint;
  fp_add : FloatingPoint -> FloatingPoint -> FloatingPoint;
  fp_mul : FloatingPoint -> FloatingPoint -> FloatingPoint;
  fp_div : FloatingPoint -> FloatingPoint -> FloatingPoint;
  fp_opp : FloatingPoint -> FloatingPoint;
  fp_ltb : FloatingPoint -> FloatingPoint -> bool;
  fp_eqb : FloatingPoint -> FloatingPoint -> bool;
  fp_recip : FloatingPoint -> FloatingPoint;
  fp_of_size_t : N -> FloatingPoint;
  fp_of_int : Z -> FloatingPoint;
  fp_floor : FloatingPoint -> Z;
  fp_val : FloatingPoint -> Qc
}.

(** *** Exact arithmetic: canonical rationals *)

Definition Qc_of_Z (z : Z) : Qc := Q2Qc (inject_Z z).

Definition Qc_floor (q : Qc) : Z := Qfloor q.

Definition Qc_ltb (x y : Qc) : bool :=
  match (x ?= y)%Qc with Lt => true | _ => false end.

Definition Qc_eqb (x y : Qc) : bool :=
  if Qc_eq_dec x y then true else false.

Definition ExactArith : FloatingPointArith := {|
  FloatingPoint := Qc;
  fp_zero := 0%Qc;
  fp_add := Qcplus;
  fp_mul := Qcmult;
  fp_div := Qcdiv;
  fp_opp := Qcopp;
  fp_ltb := Qc_ltb;
  fp_eqb := Qc_eqb;
  fp_recip := fun x => (1 / x)%Qc;
  fp_of_size_t := fun n => Qc_of_Z (Z.of_N n);
  fp_of_int := Qc_of_Z;
  fp_floor := Qc_floor;
  fp_val := fun x => x
|}.

(** *** IEEE-754 binary arithmetic, round to nearest even *)

Section IEEE.
Variables prec emax : Z.

(** Rounding of the integer-scaled value [m * 2^e] into the format. *)
Definition ieee_round (m e : Z) : spec_float :=
  binary_normalize prec emax m e false.

(** Conversion of a finite value between formats (exact when widening,
    rounded when narrowing). *)
Definition ieee_convert (p' e' : Z) (x : spec_float) : spec_float :=
  match x with
  | S754_finite s m e => binary_normalize p' e' (cond_Zopp s (Zpos m)) e s
  | _ => x
  end.

(** [1.0 / x]: the literal is a [double], so the quotient is formed in
    binary64 and narrowed by the assignment. *)
Definition ieee_recip (x : spec_float) : spec_float :=
  ieee_convert prec emax
    (SFdiv 53 1024 (binary_normalize 53 1024 1 0 false)
                   (ieee_convert 53 1024 x)).

(** [std::floor] followed by the cast to [int].  The cast of a
    non-finite value is undefined in C++; the model returns [0] there,
    and no statement below depends on it. *)
Definition ieee_floor (x : spec_float) : Z :=
  match x with
  | S754_finite s m e =>
      let z := cond_Zopp s (Zpos m) in
      if 0 <=? e then Z.shiftl z e else Z.shiftr z (- e)
  | _ => 0
  end.

Definition pow2_Q (e : Z) : Q :=
  match e with
  | Z0 => 1%Q
  | Zpos p => inject_Z (Z.pow_pos 2 p)
  | Zneg p => Qmake 1 (Pos.pow 2 p)
  end.

Definition ieee_val (x : spec_float) : Qc :=
  match x with
  | S754_finite s m e =>
      Q2Qc (inject_Z (cond_Zopp s (Zpos m)) * pow2_Q e)
  | _ => 0%Qc
  end.

Definition IEEEArith : FloatingPointArith := {|
  FloatingPoint := spec_float;
  fp_zero := S754_zero false;
  fp_add := SFadd prec emax;
  fp_mul := SFmul prec emax;
  fp_div := SFdiv prec emax;
  fp_opp := SFopp;
  fp_ltb := SFltb;
  fp_eqb := SFeqb;
  fp_recip := ieee_recip;
  fp_of_size_t := fun n => ieee_round (Z.of_N n) 0;
  fp_of_int := fun z => ieee_round z 0;
  fp_floor := ieee_floor;
  fp_val := ieee_val
|}.
End IEEE.

(** [float]: 24 bits of precision, maximal exponent 128. *)
Definition Binary32 : FloatingPointArith := IEEEArith 24 128.
(** [double]: 53 bits of precision, maximal exponent 1024. *)
Definition Binary64 : FloatingPointArith := IEEEArith 53 1024.

(* ===================================================================== *)
(** ** Data model *)
(* ===================================================================== *)

(** [BlockIndex]: three signed integer components (Eigen [Vector3i]). *)
Definition BlockIndex : Type := (Z * Z * Z)%type.

(** A handle to a block: the address the [shared_ptr] holds. *)
Definition BlockPtr : Type := positive.

(** Serialization tag of a layer ([Layer::Type]). *)
Inductive LayerType := kTsdf | kEsdf | kOccupancy.

Definition LayerType_eqb (a b : LayerType) : bool :=
  match a, b with
  | kTsdf, kTsdf | kEsdf, kEsdf | kOccupancy, kOccupancy => true
  | _, _ => false
  end.

(** [glog] severities used by the header. *)
Inductive Severity := WARNING | FATAL.

(** Result of a member function: it returns a value in a new state, or
    [LOG(FATAL)] / a failed [DCHECK] ends the program. *)
Inductive Outcome (S A : Type) : Type :=
| Returns (a : A) (s : S)
| Aborts (msg : string) (at_index : BlockIndex).
Arguments Returns {S A} a s.
Arguments Aborts {S A} msg at_index.

Section LayerModel.
Context {FPA : FloatingPointArith}.
(** The template parameter [VoxelType] and its default-constructed
    value. *)
Context {VoxelType : Type}.
Variable default_voxel : VoxelType.
(** [DCHECK]s are compiled in debug builds only. *)
Variable dcheck_enabled : bool.

(** [Point]: three [FloatingPoint] components. *)
Definition Point : Type := (FloatingPoint * FloatingPoint * FloatingPoint)%type.

(** Modelled from the spec: the class [Block] of [voxblox/core/block.h],
    which is not among the sources.  A block owns [voxels_per_side^3]
    voxels, its origin, an updated flag and a has-data flag. *)
Record Block := mkBlock {
  b_voxels_per_side : N;
  b_voxel_size : FloatingPoint;
  b_origin : Point;
  b_voxels : list VoxelType;
  b_updated : bool;
  b_has_data : bool
}.

(** Modelled from the spec: [new BlockType(voxels_per_side, voxel_size,
    origin)] allocates N^3 default (unobserved, zero-weight) voxels. *)
Definition Block_ctor (voxels_per_side : N) (voxel_size : FloatingPoint)
    (origin : Point) : Block :=
  {| b_voxels_per_side := voxels_per_side;
     b_voxel_size := voxel_size;
     b_origin := origin;
     b_voxels := replicate (N.to_nat (voxels_per_side * voxels_per_side * voxels_per_side))
                           default_voxel;
     b_updated := false;
     b_has_data := false |}.

(** The private fields of [Layer]. *)
Record Layer := mkLayer {
  voxel_size_ : FloatingPoint;
  voxels_per_side_ : N;
  block_size_ : FloatingPoint;
  block_size_inv_ : FloatingPoint;
  block_map_ : gmap BlockIndex BlockPtr
}.

(** The state a member function runs in: the layer object, the free
    store holding the blocks the handles point to, and the log. *)
Record World := mkWorld {
  layer : Layer;
  free_store : gmap BlockPtr Block;
  glog : list (Severity * string)
}.

Definition M (A : Type) : Type := World -> Outcome World A.

Definition ret {A} (a : A) : M A := fun w => Returns a w.

Definition bind {A B} (m : M A) (k : A -> M B) : M B :=
  fun w => match m w with
           | Returns a w' => k a w'
           | Aborts msg i => Aborts msg i
           end.

Definition LOG_FATAL {A} (msg : string) (i : BlockIndex) : M A :=
  fun _ => Aborts msg i.

Definition LOG_WARNING (msg : string) : M unit :=
  fun w => Returns tt {| layer := layer w;
                         free_store := free_store w;
                         glog := glog w ++ [(WARNING, msg)] |}.

Definition DCHECK (cond : bool) (msg : string) (i : BlockIndex) : M unit :=
  if dcheck_enabled && negb cond then LOG_FATAL msg i else ret tt.

Definition get_layer : M Layer := fun w => Returns (layer w) w.

Definition set_block_map (m : gmap BlockIndex BlockPtr) : M unit :=
  fun w => Returns tt
    {| layer := {| voxel_size_ := voxel_size_ (layer w);
                   voxels_per_side_ := voxels_per_side_ (layer w);
                   block_size_ := block_size_ (layer w);
                   block_size_inv_ := block_size_inv_ (layer w);
                   block_map_ := m |};
       free_store := free_store w;
       glog := glog w |}.

(** [new BlockType(...)] held by a [shared_ptr]: a fresh address. *)
Definition new_block (b : Block) : M BlockPtr :=
  fun w => let p := fresh (dom (free_store w)) in
           Returns p {| layer := layer w;
                        free_store := <[p := b]> (free_store w);
                        glog := glog w |}.

(** The temporary [shared_ptr] of a refused insertion is destroyed. *)
Definition delete_block (p : BlockPtr) : M unit :=
  fun w => Returns tt {| layer := layer w;
                         free_store := delete p (free_store w);
                         glog := glog w |}.

(* =================================================================== *)
(** ** The member functions of [Layer] *)
(* =================================================================== *)

(** [Layer(voxel_size, voxels_per_side)]. *)
Definition Layer_ctor (voxel_size : FloatingPoint) (voxels_per_side : N) : Layer :=
  let block_size := fp_mul voxel_size (fp_of_size_t voxels_per_side) in
  {| voxel_size_ := voxel_size;
     voxels_per_side_ := voxels_per_side;
     block_size_ := block_size;
     block_size_inv_ := fp_recip block_size;
     block_map_ := ∅ |}.

(** Modelled from the spec: [floorVectorAndDowncast] of
    [voxblox/core/common.h], which is not among the sources: the
    component-wise floor, cast to the integer index type. *)
Definition floorVectorAndDowncast (x : Point) : BlockIndex :=
  let '(x0, x1, x2) := x in (fp_floor x0, fp_floor x1, fp_floor x2).

(** [coords * s]: Eigen's vector-by-scalar product. *)
Definition Point_scale (coords : Point) (s : FloatingPoint) : Point :=
  let '(x0, x1, x2) := coords in (fp_mul x0 s, fp_mul x1 s, fp_mul x2 s).

(** [index.cast<FloatingPoint>()]. *)
Definition BlockIndex_cast (index : BlockIndex) : Point :=
  let '(i0, i1, i2) := index in (fp_of_int i0, fp_of_int i1, fp_of_int i2).

Definition computeBlockIndexFromCoordinates (L : Layer) (coords : Point)
    : BlockIndex :=
  floorVectorAndDowncast (Point_scale coords (block_size_inv_ L)).

Definition getBlockByIndex (index : BlockIndex) : M BlockPtr :=
  bind get_layer (fun L =>
    match block_map_ L !! index with
    | Some p => ret p
    | None => LOG_FATAL "Accessed unallocated block at " index
    end).

(** [None] is the null handle [BlockType::Ptr()]. *)
Definition getBlockPtrByIndex (index : BlockIndex) : M (option BlockPtr) :=
  bind get_layer (fun L =>
    match block_map_ L !! index with
    | Some p => ret (Some p)
    | None => bind (LOG_WARNING "Returning null ptr to block!")
                   (fun _ => ret None)
    end).

(** [block_map_.insert(...)]: the entry is added when the key is free;
  otherwise the map is left as it is and the temporary block is
  destroyed.  The result is the entry now stored under the key and
  whether the insertion took place. *)
Definition block_map_insert (index : BlockIndex) (ptr : BlockPtr)
    : M (BlockIndex * BlockPtr * bool) :=
  bind get_layer (fun L =>
    match block_map_ L !! index with
    | None => bind (set_block_map (<[index := ptr]> (block_map_ L)))
                   (fun _ => ret (index, ptr, true))
    | Some p => bind (delete_block ptr) (fun _ => ret (index, p, false))
    end).

(** [DCHECK_NOTNULL] has no counterpart: a handle is an address. *)
Definition allocateNewBlock (index : BlockIndex) : M BlockPtr :=
  bind get_layer (fun L =>
  bind (new_block (Block_ctor (voxels_per_side_ L) (voxel_size_ L)
                     (Point_scale (BlockIndex_cast index) (block_size_ L))))
    (fun fresh_ptr =>
  bind (block_map_insert index fresh_ptr) (fun insert_status =>
  bind (DCHECK insert_status.2
          "Block already exists when allocating at " index) (fun _ =>
  bind (DCHECK (bool_decide (insert_status.1.1 = index))
          "Check failed: insert_status.first->first == index" index) (fun _ =>
  ret insert_status.1.2))))).

Definition allocateBlockPtrByIndex (index : BlockIndex) : M BlockPtr :=
  bind get_layer (fun L =>
    match block_map_ L !! index with
    | Some p => ret p
    | None => allocateNewBlock index
    end).

Definition getBlockPtrByCoordinates (coords : Point) : M (option BlockPtr) :=
  bind get_layer (fun L =>
    getBlockPtrByIndex (computeBlockIndexFromCoordinates L coords)).

Definition allocateBlockPtrByCoordinates (coords : Point) : M BlockPtr :=
  bind get_layer (fun L =>
    allocateBlockPtrByIndex (computeBlockIndexFromCoordinates L coords)).

Definition allocateNewBlockByCoordinates (coords : Point) : M BlockPtr :=
  bind get_layer (fun L =>
    allocateNewBlock (computeBlockIndexFromCoordinates L coords)).

(** [block_map_.erase(index)]: the map gives up its handle.  Whether the
    block is then destroyed depends on the handles held outside the
    layer, which the state does not record; the free store keeps the
    block, and no statement speaks of an erased block afterwards. *)
Definition removeBlock (index : BlockIndex) : M unit :=
  bind get_layer (fun L => set_block_map (delete index (block_map_ L))).

Definition removeBlockByCoordinates (coords : Point) : M unit :=
  bind get_layer (fun L =>
    set_block_map (delete (computeBlockIndexFromCoordinates L coords)
                          (block_map_ L))).

Definition getAllAllocatedBlocks (L : Layer) : list BlockIndex :=
  (map_to_list (block_map_ L)).*1.

Definition getNumberOfAllocatedBlocks (L : Layer) : nat :=
  size (block_map_ L).

Definition block_size (L : Layer) : FloatingPoint := block_size_ L.
Definition voxel_size (L : Layer) : FloatingPoint := voxel_size_ L.
Definition voxels_per_side (L : Layer) : N := voxels_per_side_ L.

End LayerModel.

(* ===================================================================== *)
(** ** The weighted-merge update rule *)
(* ===================================================================== *)

Section MergeRule.
Context {FPA : FloatingPointArith}.

(** Modelled from the spec: the Tsdf voxel of [voxblox/core/voxel.h],
    which is not among the sources, reduced to the signed distance and
    the accumulated weight the update rule is stated on. *)
Record TsdfVoxel := mkTsdfVoxel {
  distance : FloatingPoint;
  weight : FloatingPoint
}.

Definition fp_clamp (x lo hi : FloatingPoint) : FloatingPoint :=
  if fp_ltb x lo then lo else if fp_ltb hi x then hi else x.

(** Modelled from the spec: the update rule of the integrator, which is
    not among the sources:
    [w_new = w1 + w2], [d_new = clamp((d1*w1 + d2*w2) / w_new, -tau, +tau)]. *)
Definition updateTsdfVoxel (tau : FloatingPoint) (v obs : TsdfVoxel)
    : TsdfVoxel :=
  let w_new := fp_add (weight v) (weight obs) in
  let d_new := fp_div (fp_add (fp_mul (distance v) (weight v))
                              (fp_mul (distance obs) (weight obs))) w_new in
  {| distance := fp_clamp d_new (fp_opp tau) tau; weight := w_new |}.

(** A sequence of observations applied to one voxel, first to last. *)
Definition integrateObservations (tau : FloatingPoint) (v : TsdfVoxel)
    (obs : list TsdfVoxel) : TsdfVoxel :=
  foldl (updateTsdfVoxel tau) v obs.

(** The default (unobserved, zero-weight) voxel. *)
Definition TsdfVoxel_default : TsdfVoxel :=
  {| distance := fp_zero; weight := fp_zero |}.
End MergeRule.

(* ===================================================================== *)
(** ** The persistence codec *)
(* ===================================================================== *)

(** [Layer::BlockMergingStrategy]. *)
Inductive BlockMergingStrategy := kProhibit | kReplace | kDiscard | kMerge.

Section Persistence.
Context {FPA : FloatingPointArith}.
Context {VoxelType : Type}.
Variable voxel_type : LayerType.
(** The merge of an existing voxel with an incoming one (for Tsdf
    voxels, [updateTsdfVoxel]). *)
Variable merge_voxel : VoxelType -> VoxelType -> VoxelType.

(** Modelled from the spec: one record per block, the block index and
    the raw voxel payload. *)
Record BlockProto := mkBlockProto {
  bp_index : BlockIndex;
  bp_voxels : list VoxelType
}.

(** Modelled from the spec: the header (voxel size, voxels per side,
    voxel-type tag, block count) followed by the block records. *)
Record LayerProto := mkLayerProto {
  lp_voxel_size : FloatingPoint;
  lp_voxels_per_side : N;
  lp_type : LayerType;
  lp_block_count : N;
  lp_blocks : list BlockProto
}.

Abbreviation Block := (@Block FPA VoxelType).
Abbreviation Layer := (@Layer FPA).
Abbreviation World := (@World FPA VoxelType).

Definition encode_entry (store : gmap BlockPtr Block)
    (kv : BlockIndex * BlockPtr) : option BlockProto :=
  b ← store !! kv.2;
  Some {| bp_index := kv.1; bp_voxels := b_voxels b |}.

(** Modelled from the spec: [Layer::getProto] (defined in
    [layer_inl.h], which is not among the sources) encodes every
    allocated block. *)
Definition getProto (w : World) : LayerProto :=
  let blocks := omap (encode_entry (free_store w))
                     (map_to_list (block_map_ (layer w))) in
  {| lp_voxel_size := voxel_size_ (layer w);
     lp_voxels_per_side := voxels_per_side_ (layer w);
     lp_type := voxel_type;
     lp_block_count := N.of_nat (length blocks);
     lp_blocks := blocks |}.

(** Modelled from the spec: [Layer::isCompatible] is true iff voxel
    size, voxels per side and voxel-type tag all match. *)
Definition isCompatible (L : Layer) (proto : LayerProto) : bool :=
  fp_eqb (lp_voxel_size proto) (voxel_size_ L)
  && N.eqb (lp_voxels_per_side proto) (voxels_per_side_ L)
  && LayerType_eqb (lp_type proto) voxel_type.

(** The block a record decodes to, with the target layer's geometry. *)
Definition decode_block (L : Layer) (r : BlockProto) : Block :=
  {| b_voxels_per_side := voxels_per_side_ L;
     b_voxel_size := voxel_size_ L;
     b_origin := Point_scale (BlockIndex_cast (bp_index r)) (block_size_ L);
     b_voxels := bp_voxels r;
     b_updated := false;
     b_has_data := false |}.

Definition store_block_at (index : BlockIndex) (b : Block) (w : World) : World :=
  let p := fresh (dom (free_store w)) in
  {| layer := {| voxel_size_ := voxel_size_ (layer w);
                 voxels_per_side_ := voxels_per_side_ (layer w);
                 block_size_ := block_size_ (layer w);
                 block_size_inv_ := block_size_inv_ (layer w);
                 block_map_ := <[index := p]> (block_map_ (layer w)) |};
     free_store := <[p := b]> (free_store w);
     glog := glog w |}.

Definition merge_into (p : BlockPtr) (r : BlockProto) (w : World) : World :=
  {| layer := layer w;
     free_store := alter (fun b =>
                     {| b_voxels_per_side := b_voxels_per_side b;
                        b_voxel_size := b_voxel_size b;
                        b_origin := b_origin b;
                        b_voxels := zip_with merge_voxel (b_voxels b) (bp_voxels r);
                        b_updated := true;
                        b_has_data := b_has_data b |}) p (free_store w);
     glog := glog w |}.

(** Modelled from the spec: the four merge policies, applied to one
    incoming record.  [None] is an index collision under Prohibit. *)
Definition load_block (strategy : BlockMergingStrategy) (r : BlockProto)
    (w : World) : option World :=
  match block_map_ (layer w) !! bp_index r with
  | None => Some (store_block_at (bp_index r) (decode_block (layer w) r) w)
  | Some p =>
      match strategy with
      | kProhibit => None
      | kReplace => Some (store_block_at (bp_index r) (decode_block (layer w) r) w)
      | kDiscard => Some w
      | kMerge => Some (merge_into p r w)
      end
  end.

Fixpoint load_blocks (strategy : BlockMergingStrategy)
    (rs : list BlockProto) (scratch : World) : option World :=
  match rs with
  | [] => Some scratch
  | r :: rs' =>
      match load_block strategy r scratch with
      | Some scratch' => load_blocks strategy rs' scratch'
      | None => None
      end
  end.

(** Modelled from the spec: decoding validates the header, loads into a
    scratch copy and commits to the target only on full success. *)
Definition loadBlocksFromProto (strategy : BlockMergingStrategy)
    (proto : LayerProto) (w : World) : bool * World :=
  if isCompatible (layer w) proto then
    match load_blocks strategy (lp_blocks proto) w with
    | Some w' => (true, w')
    | None => (false, w)
    end
  else (false, w).

(** Modelled from the spec: [Layer::saveToFile]; [fs] holds the files of
    the file system by path. *)
Definition saveToFile (file_path : string) (w : World)
    (fs : gmap string LayerProto) : bool * gmap string LayerProto :=
  (true, <[file_path := getProto w]> fs).

(** Modelled from the spec: [Layer::loadBlocksFromFile]; an unreadable
    file is a failure result and changes nothing. *)
Definition loadBlocksFromFile (file_path : string)
    (strategy : BlockMergingStrategy) (fs : gmap string LayerProto)
    (w : World)
    : bool * World :=
  match fs !! file_path with
  | Some proto => loadBlocksFromProto strategy proto w
  | None => (false, w)
  end.
End Persistence.

(* ===================================================================== *)
(** ** Statements of the specification, in its own words *)
(* ===================================================================== *)

Section SpecWords.
Context {FPA : FloatingPointArith} {VoxelType : Type}.

(** The block index the specification asks for: the exact floor of the
    quotient of each coordinate by the block size, as real numbers. *)
Definition floor_of_quotient (L : @Layer FPA) (coords : @Point FPA) : BlockIndex :=
  let '(x0, x1, x2) := coords in
  let b := fp_val (block_size_ L) in
  (Qc_floor (fp_val x0 / b), Qc_floor (fp_val x1 / b), Qc_floor (fp_val x2 / b)).

(** The handles stored under one block index, as the map enumerates them. *)
Definition blocks_at (L : @Layer FPA) (i : BlockIndex) : list BlockPtr :=
  (filter (fun kv => kv.1 = i) (map_to_list (block_map_ L))).*2.

(** The representation invariant of a layer and the blocks it owns:
    at most one block per index; every stored handle points to a live
    block; no block is stored under two indices; every block was built
    with the layer's own geometry. *)
Record Layer_inv (w : @World FPA VoxelType) : Prop := mkLayer_inv {
  inv_unique : forall i, (length (blocks_at (layer w) i) <= 1)%nat;
  inv_live : forall i p,
    block_map_ (layer w) !! i = Some p -> is_Some (free_store w !! p);
  inv_no_alias : forall i j p,
    block_map_ (layer w) !! i = Some p ->
    block_map_ (layer w) !! j = Some p -> i = j;
  inv_geometry : forall i p b,
    block_map_ (layer w) !! i = Some p -> free_store w !! p = Some b ->
    b_voxels_per_side b = voxels_per_side_ (layer w)
    /\ b_voxel_size b = voxel_size_ (layer w)
    /\ b_origin b = Point_scale (BlockIndex_cast i) (block_size_ (layer w))
}.

(** A signed distance within the truncation band [[-tau, tau]]. *)
Definition in_band (tau : Qc) (v : @TsdfVoxel ExactArith) : Prop :=
  (- tau <= distance v)%Qc /\ (distance v <= tau)%Qc.

(** Every handle of the map points to a block of the free store. *)
Definition handles_live (w : @World FPA VoxelType) : Prop :=
  forall i p, block_map_ (layer w) !! i = Some p -> is_Some (free_store w !! p).

(** The voxel contents of the block stored at an index, if any. *)
Definition voxels_at (w : @World FPA VoxelType) (i : BlockIndex)
    : option (list VoxelType) :=
  p ← block_map_ (layer w) !! i;
  b ← free_store w !! p;
  Some (b_voxels b).

(** The geometry parameters of a layer. *)
Definition geometry (L : @Layer FPA) : FloatingPoint * N * FloatingPoint * FloatingPoint :=
  (voxel_size_ L, voxels_per_side_ L, block_size_ L, block_size_inv_ L).
End SpecWords.

(* ===================================================================== *)
(** ** Concrete layers and values *)
(* ===================================================================== *)

(** [0.1f], the [float] nearest to one tenth. *)
Definition f32_tenth : @FloatingPoint Binary32 :=
  @fp_div Binary32 (@fp_of_int Binary32 1) (@fp_of_int Binary32 10).

(** [0.1875f = 3/16], exactly representable. *)
Definition f32_three_sixteenths : @FloatingPoint Binary32 :=
  @fp_div Binary32 (@fp_of_int Binary32 3) (@fp_of_int Binary32 16).

(** The largest [float] below 15, that is [15 - 2^-20]. *)
Definition f32_below_15 : @FloatingPoint Binary32 :=
  S754_finite false 15728639 (-20).

(** A [float] layer with voxel size 0.1 and 16 voxels per side
    (block size 1.6), as [batch_tsdf.cc] builds it. *)
Definition layer_f32_block_1_6 : @Layer Binary32 :=
  Layer_ctor f32_tenth 16.

(** A [float] layer with voxel size 3/16 and 16 voxels per side: its
    block size is exactly 3. *)
Definition layer_f32_block_3 : @Layer Binary32 :=
  Layer_ctor f32_three_sixteenths 16.

(** A [double] layer with voxel size 3/64 and 16 voxels per side: its
    block size is exactly 3/4. *)
Definition layer_f64_block_0_75 : @Layer Binary64 :=
  Layer_ctor (@fp_div Binary64 (@fp_of_int Binary64 3) (@fp_of_int Binary64 64)) 16.

(** The largest [double] below -30, that is [-30 - 2^-48]. *)
Definition f64_below_minus_30 : @FloatingPoint Binary64 :=
  S754_finite true 8444249301319681 (-48).

Definition Qc_tenth : Qc := Q2Qc (1 # 10).

(** The same geometry in exact arithmetic. *)
Definition layer_exact_block_1_6 : @Layer ExactArith :=
  @Layer_ctor ExactArith Qc_tenth 16.

(** An exact-arithmetic layer of Tsdf voxels with 2 voxels per side, no
    block allocated, nothing in the free store, an empty log. *)
Definition world_empty : @World ExactArith (@TsdfVoxel ExactArith) :=
  @mkWorld ExactArith _ (@Layer_ctor ExactArith Qc_tenth 2) ∅ [].

(** [world_empty] after a block was allocated at index (2,0,0). *)
Definition world_one_block : @World ExactArith (@TsdfVoxel ExactArith) :=
  let block_size := @fp_mul ExactArith Qc_tenth (@fp_of_size_t ExactArith 2) in
  @mkWorld ExactArith _
    (@mkLayer ExactArith Qc_tenth 2 block_size (@fp_recip ExactArith block_size)
       {[ (2, 0, 0) := 1%positive ]})
    {[ 1%positive :=
         @Block_ctor ExactArith _ (@TsdfVoxel_default ExactArith) 2 Qc_tenth
           (@Point_scale ExactArith (@BlockIndex_cast ExactArith (2, 0, 0))
              block_size) ]}
    [].

(** Truncation distance 0.2 and the two observations (0.1, 1) and
    (-0.1, 1) of the specification's merge scenario. *)
Definition tau_example : Qc := Q2Qc (2 # 10).
Definition obs_plus : @TsdfVoxel ExactArith :=
  @mkTsdfVoxel ExactArith (Q2Qc (1 # 10)) 1%Qc.
Definition obs_minus : @TsdfVoxel ExactArith :=
  @mkTsdfVoxel ExactArith (Q2Qc (-1 # 10)) 1%Qc.

(** An observation far outside the band of [tau_example]. *)
Definition obs_far : @TsdfVoxel ExactArith :=
  @mkTsdfVoxel ExactArith 1%Qc 1%Qc.

(** Layer A of the specification's conflict scenario: one block at
    index (2,0,0) whose voxels all hold (0.1, 1). *)
Definition world_A : @World ExactArith (@TsdfVoxel ExactArith) :=
  let block_size := @fp_mul ExactArith Qc_tenth (@fp_of_size_t ExactArith 2) in
  @mkWorld ExactArith _
    (@mkLayer ExactArith Qc_tenth 2 block_size (@fp_recip ExactArith block_size)
       {[ (2, 0, 0) := 1%positive ]})
    {[ 1%positive :=
         @mkBlock ExactArith _ 2 Qc_tenth
           (@Point_scale ExactArith (@BlockIndex_cast ExactArith (2, 0, 0))
              block_size)
           (replicate 8 obs_plus) true true ]}
    [].

(** An encoding with the same geometry holding index (2,0,0) with voxels
    (-0.1, 1). *)
Definition proto_B : @LayerProto ExactArith (@TsdfVoxel ExactArith) :=
  @mkLayerProto ExactArith _ Qc_tenth 2 kTsdf 1
    [ @mkBlockProto (@TsdfVoxel ExactArith) (2, 0, 0) (replicate 8 obs_minus) ].

(** The (distance, weight) pairs of a voxel array, as plain fractions. *)
Definition voxel_values (vs : option (list (@TsdfVoxel ExactArith)))
    : option (list (Q * Q)) :=
  fmap (M := list)
    (fun v : @TsdfVoxel ExactArith => (this (distance v), this (weight v)))
  <$> vs.

(** Two points of block (2,0,0) when the block size is 0.2. *)
Definition point_a : @Point ExactArith :=
  (Q2Qc (45 # 100), 0%Qc, Q2Qc (1 # 10)).
Definition point_b : @Point ExactArith :=
  (Q2Qc (5 # 10), Q2Qc (19 # 100), 0%Qc).

(** The point (-0.1, 1.6, -1.6). *)
Definition point_c : @Point ExactArith :=
  (Q2Qc (-1 # 10), Q2Qc (16 # 10), Q2Qc (-16 # 10)).

(** The voxel merge of the Merge policy, at truncation distance 0.2. *)
Definition merge_example
    : @TsdfVoxel ExactArith -> @TsdfVoxel ExactArith -> @TsdfVoxel ExactArith :=
  @updateTsdfVoxel ExactArith tau_example.

(* ===================================================================== *)
(** ** Sequences of calls on a layer *)
(* ===================================================================== *)

Section LayerCalls.
Context {FPA : FloatingPointArith} {VoxelType : Type}.
Variable default_voxel : VoxelType.
Variable dcheck_enabled : bool.

(** One call of a member function of [Layer] that runs in a state. *)
Inductive LayerCall :=
| Call_getBlockByIndex (index : BlockIndex)
| Call_getBlockPtrByIndex (index : BlockIndex)
| Call_allocateBlockPtrByIndex (index : BlockIndex)
| Call_allocateNewBlock (index : BlockIndex)
| Call_removeBlock (index : BlockIndex)
| Call_getBlockPtrByCoordinates (coords : @Point FPA)
| Call_allocateBlockPtrByCoordinates (coords : @Point FPA)
| Call_allocateNewBlockByCoordinates (coords : @Point FPA)
| Call_removeBlockByCoordinates (coords : @Point FPA).

(** A call whose result the caller drops. *)
Definition discard {A} (m : @M FPA VoxelType A) : @M FPA VoxelType unit :=
  bind m (fun _ => ret tt).

Definition do_call (c : LayerCall) : @M FPA VoxelType unit :=
  match c with
  | Call_getBlockByIndex i => discard (getBlockByIndex i)
  | Call_getBlockPtrByIndex i => discard (getBlockPtrByIndex i)
  | Call_allocateBlockPtrByIndex i =>
      discard (allocateBlockPtrByIndex default_voxel dcheck_enabled i)
  | Call_allocateNewBlock i =>
      discard (allocateNewBlock default_voxel dcheck_enabled i)
  | Call_removeBlock i => removeBlock i
  | Call_getBlockPtrByCoordinates p => discard (getBlockPtrByCoordinates p)
  | Call_allocateBlockPtrByCoordinates p =>
      discard (allocateBlockPtrByCoordinates default_voxel dcheck_enabled p)
  | Call_allocateNewBlockByCoordinates p =>
      discard (allocateNewBlockByCoordinates default_voxel dcheck_enabled p)
  | Call_removeBlockByCoordinates p => removeBlockByCoordinates p
  end.

(** The calls made one after the other; the first [LOG(FATAL)] or failed
    [DCHECK] ends the run. *)
Fixpoint run_calls (cs : list LayerCall) : @M FPA VoxelType unit :=
  match cs with
  | [] => ret tt
  | c :: cs' => bind (do_call c) (fun _ => run_calls cs')
  end.

(** The calls that cannot end the program: everything but the asserting
    lookup, and the unguarded insertion only when [DCHECK] is compiled
    out. *)
Definition cannot_abort (c : LayerCall) : bool :=
  match c with
  | Call_getBlockByIndex _ => false
  | Call_allocateNewBlock _ | Call_allocateNewBlockByCoordinates _ =>
      negb dcheck_enabled
  | _ => true
  end.

(** The block index a call works on. *)
Definition call_index (L : @Layer FPA) (c : LayerCall) : BlockIndex :=
  match c with
  | Call_getBlockByIndex i | Call_getBlockPtrByIndex i
  | Call_allocateBlockPtrByIndex i | Call_allocateNewBlock i
  | Call_removeBlock i => i
  | Call_getBlockPtrByCoordinates p | Call_allocateBlockPtrByCoordinates p
  | Call_allocateNewBlockByCoordinates p | Call_removeBlockByCoordinates p =>
      computeBlockIndexFromCoordinates L p
  end.
End LayerCalls.

(** The origin of block [index]: the third constructor argument that
    [allocateNewBlock] passes to the block. *)
Definition block_origin {FPA : FloatingPointArith} (L : @Layer FPA)
    (index : BlockIndex) : @Point FPA :=
  Point_scale (BlockIndex_cast index) (block_size_ L).

(** The values of the index type, a 32-bit [int]. *)
Definition int_representable (z : Z) : Prop :=
  -2147483648 <= z <= 2147483647.

Definition BlockIndex_representable (i : BlockIndex) : Prop :=
  int_representable i.1.1 /\ int_representable i.1.2 /\ int_representable i.2.

(** [coords] lies in the half-open cube of side [block_size] whose corner
    is [i * block_size], all taken as real numbers. *)
Definition in_block {FPA : FloatingPointArith} (L : @Layer FPA)
    (i : BlockIndex) (coords : @Point FPA) : Prop :=
  let b := fp_val (block_size_ L) in
  ((Qc_of_Z i.1.1 * b <= fp_val coords.1.1)%Qc
   /\ (fp_val coords.1.1 < (Qc_of_Z i.1.1 + 1) * b)%Qc)
  /\ ((Qc_of_Z i.1.2 * b <= fp_val coords.1.2)%Qc
      /\ (fp_val coords.1.2 < (Qc_of_Z i.1.2 + 1) * b)%Qc)
  /\ ((Qc_of_Z i.2 * b <= fp_val coords.2)%Qc
      /\ (fp_val coords.2 < (Qc_of_Z i.2 + 1) * b)%Qc).

(** A float that is a number: a zero or a finite value. *)
Definition ieee_is_finite (x : spec_float) : Prop :=
  match x with
  | S754_zero _ | S754_finite _ _ _ => True
  | _ => False
  end.

(** The floor, as a real number, of the product the code forms: of each
    coordinate with the stored reciprocal of the block size. *)
Definition floor_of_product {FPA : FloatingPointArith} (L : @Layer FPA)
    (coords : @Point FPA) : BlockIndex :=
  let '(x0, x1, x2) := coords in
  (Qc_floor (fp_val (fp_mul x0 (block_size_inv_ L))),
   Qc_floor (fp_val (fp_mul x1 (block_size_inv_ L))),
   Qc_floor (fp_val (fp_mul x2 (block_size_inv_ L)))).

(** The float points the code can index: the three products are numbers
    and their floors are values of the index type (elsewhere the cast to
    [int] is undefined). *)
Definition indexable {prec emax : Z} (L : @Layer (IEEEArith prec emax))
    (coords : @Point (IEEEArith prec emax)) : Prop :=
  let '(x0, x1, x2) := coords in
  (ieee_is_finite (SFmul prec emax x0 (block_size_inv_ L))
   /\ ieee_is_finite (SFmul prec emax x1 (block_size_inv_ L))
   /\ ieee_is_finite (SFmul prec emax x2 (block_size_inv_ L)))
  /\ BlockIndex_representable (floor_of_product L coords).

(** A coordinate whose product is negative is never mapped to block 0 or
    above (what truncation towards zero would do). *)
Definition negative_goes_down {FPA : FloatingPointArith} (L : @Layer FPA)
    (coords : @Point FPA) : Prop :=
  let '(x0, x1, x2) := coords in
  let '(i0, i1, i2) := computeBlockIndexFromCoordinates L coords in
  ((fp_val (fp_mul x0 (block_size_inv_ L)) < 0)%Qc -> i0 <= -1)
  /\ ((fp_val (fp_mul x1 (block_size_inv_ L)) < 0)%Qc -> i1 <= -1)
  /\ ((fp_val (fp_mul x2 (block_size_inv_ L)) < 0)%Qc -> i2 <= -1).

(** [float] values of the merge scenario: truncation distance 0.2, an
    observation (1, 1) far outside the band, and (-0.1, 1). *)
Definition f32_fifth : @FloatingPoint Binary32 :=
  @fp_div Binary32 (@fp_of_int Binary32 1) (@fp_of_int Binary32 5).
Definition f32_one : @FloatingPoint Binary32 := @fp_of_int Binary32 1.
Definition obs_far_f32 : @TsdfVoxel Binary32 :=
  @mkTsdfVoxel Binary32 f32_one f32_one.
Definition obs_minus_f32 : @TsdfVoxel Binary32 :=
  @mkTsdfVoxel Binary32 (@fp_opp Binary32 f32_tenth) f32_one.
Definition obs_plus_f32 : @TsdfVoxel Binary32 :=
  @mkTsdfVoxel Binary32 f32_tenth f32_one.

(* ===================================================================== *)
(** ** The batch driver of [voxblox_ros/src/batch_tsdf.cc] *)
(* ===================================================================== *)

Section BatchTsdf.
Context {FPA : FloatingPointArith}.
(** Values of type [double], as [operator>>] and [atof] produce them. *)
Variable double : Type.
(** [pcl::PointCloud<pcl::PointXYZI>]. *)
Variable PointCloud : Type.

(** The outside world of the driver.  A number file is the sequence of
    results the successive extractions [ifs >> val] give: a [double], or
    a failure (a token that is not a number); a file that cannot be
    opened, or the end of the file, fails at once, as the empty sequence
    does.  A word file is its sequence of whitespace-separated words. *)
Variable open_numbers : string -> list (option double).
Variable open_words : string -> list string.
(** [pcl::io::loadPCDFile]; [None] is the result -1. *)
Variable loadPCDFile : string -> option PointCloud.
(** Whether [outputMeshLayerAsPly] succeeds for an output name. *)
Variable outputMeshLayerAsPly_ok : string -> bool.
(** The C library's [atof] and [atoi], and the narrowing of a [double] to
    [FloatingPoint]. *)
Variable atof : string -> double.
Variable atoi : string -> Z.
Variable double_to_FloatingPoint : double -> FloatingPoint.

(** [Eigen::MatrixXd], read and written by [M(row, col)]. *)
Definition Matrix : Type := nat -> nat -> double.

Definition Matrix_set (M : Matrix) (row col : nat) (val : double) : Matrix :=
  fun r c => if decide (r = row /\ c = col) then val else M r c.

(** [M.block<rows, cols>(r0, c0)], row by row. *)
Definition Matrix_block (M : Matrix) (r0 c0 rows cols : nat)
    : list (list double) :=
  (fun r => (fun c => M (r0 + r)%nat (c0 + c)%nat) <$> seq 0 cols)
  <$> seq 0 rows.

(** [Eigen::Affine3d]: the 3x3 linear part and the translation column. *)
Record Affine3d := mkAffine3d {
  linear : list (list double);
  translation : list (list double)
}.

(** The inner loop of [readAffine]: the columns of one row.  [None] is
    the failed extraction [!(ifs >> val)]. *)
Fixpoint readAffine_cols (row : nat) (cols : list nat) (M : Matrix)
    (ifs : list (option double)) : option (Matrix * list (option double)) :=
  match cols with
  | [] => Some (M, ifs)
  | col :: cols' =>
      match ifs with
      | Some val :: ifs' => readAffine_cols row cols' (Matrix_set M row col val) ifs'
      | _ => None
      end
  end.

(** The outer loop of [readAffine]. *)
Fixpoint readAffine_rows (rows : list nat) (M : Matrix)
    (ifs : list (option double)) : option (Matrix * list (option double)) :=
  match rows with
  | [] => Some (M, ifs)
  | row :: rows' =>
      match readAffine_cols row (seq 0 4) M ifs with
      | Some (M', ifs') => readAffine_rows rows' M' ifs'
      | None => None
      end
  end.

(** [readAffine(T, filename)]: the new value of [T] and the messages
    given to [ROS_ERROR_STREAM].  [M_uninit] is the content of the
    matrix before any entry is assigned. *)
Definition readAffine (M_uninit : Matrix) (T : Affine3d) (filename : string)
    : Affine3d * list string :=
  match readAffine_rows (seq 0 4) M_uninit (open_numbers filename) with
  | None => (T, [("Could not read a 4x4 matrix from: " ++ filename)%string])
  | Some (M, _) =>
      ({| linear := Matrix_block M 0 0 3 3;
          translation := Matrix_block M 0 3 3 1 |}, [])
  end.

(** The numbers at the head of a stream, up to the first token that is
    not one. *)
Fixpoint leading_numbers (ifs : list (option double)) : list double :=
  match ifs with
  | Some val :: ifs' => val :: leading_numbers ifs'
  | _ => []
  end.

(** What the driver hands to the components it drives, and the lines it
    prints about files.  (The lines that print numbers are left out:
    their text depends on the stream's formatting.)
    [IntegratePointCloud T cloud] is the call
    [merged_integrator.integratePointCloud] with the pose built from [T]
    and the points and colors that [convertPointcloud] makes of [cloud]. *)
Inductive Event :=
| Cout (line : string)
| ROS_ERROR (msg : string)
| New_Layer (merged_layer : @Layer FPA)
| New_MergedTsdfIntegrator (default_truncation_distance : FloatingPoint)
    (max_ray_length_m : double) (integrator_threads : Z)
| New_MeshLayer (block_size : FloatingPoint)
| IntegratePointCloud (T : Affine3d) (cloud : PointCloud)
| GenerateMesh (only_mesh_updated_blocks clear_updated_flag : bool)
| OutputMeshLayerAsPly (out_cloud : string).

(** [while (ifs >> pose_file >> cloud_file)]: the words are taken two at
    a time. *)
Fixpoint read_index (words : list string) : list string * list string :=
  match words with
  | pose_file :: cloud_file :: rest =>
      let '(poses, clouds) := read_index rest in
      (pose_file :: poses, cloud_file :: clouds)
  | _ => ([], [])
  end.

(** The loop of [Run] over the clouds, from index [i] on.  The result is
    the events and whether the loop ran to its end ([false]: the early
    [return] after a cloud that could not be read).  [T_uninit] is the
    content of the transform declared without initializer. *)
Fixpoint Run_clouds (M_uninit : Matrix) (T_uninit : Affine3d) (i : Z)
    (files : list (string * string)) (beg end_ : Z) : list Event * bool :=
  match files with
  | [] => ([], true)
  | (pose_file, cloud_file) :: files' =>
      if (i <? beg) || (end_ <=? i)
      then Run_clouds M_uninit T_uninit (i + 1) files' beg end_
      else
        match loadPCDFile cloud_file with
        | None => ([Cout ("Could not read: " ++ cloud_file)], false)
        | Some pointcloud_pcl =>
            let '(T, errors) := readAffine M_uninit T_uninit pose_file in
            let '(events, completed) :=
              Run_clouds M_uninit T_uninit (i + 1) files' beg end_ in
            (Cout ("Processing: " ++ cloud_file)
               :: (ROS_ERROR <$> errors)
               ++ IntegratePointCloud T pointcloud_pcl :: events,
             completed)
        end
  end.

(** [BatchSdfIntegrator::Run]. *)
Definition Run (M_uninit : Matrix) (T_uninit : Affine3d)
    (index_file out_cloud : string) (max_ray_length_m voxel_size : double)
    (beg end_ : Z) : list Event :=
  let voxel_size_ := double_to_FloatingPoint voxel_size in
  let voxels_per_side_ := 16 in
  let block_size_ := fp_mul (fp_of_int voxels_per_side_) voxel_size_ in
  let truncation_distance_ := fp_mul (fp_of_int 2) voxel_size_ in
  let '(poses, clouds) := read_index (open_words index_file) in
  let '(events, completed) :=
    Run_clouds M_uninit T_uninit 0 (zip poses clouds) beg end_ in
  [New_Layer (Layer_ctor voxel_size_ (Z.to_N voxels_per_side_));
   New_MergedTsdfIntegrator truncation_distance_ max_ray_length_m 1;
   New_MeshLayer block_size_;
   Cout ("Reading: " ++ index_file)]
  ++ events
  ++ (if completed
      then [GenerateMesh false true;
            Cout ("Writing: " ++ out_cloud);
            OutputMeshLayerAsPly out_cloud]
           ++ (if outputMeshLayerAsPly_ok out_cloud then []
               else [Cout "Could not write the mesh."])
      else []).

(** [std::numeric_limits<int>::max()]. *)
Definition INT_MAX : Z := 2147483647.

(** How [main] ends: it returns a status after the given events, or it
    passes the null pointer [argv[argc]] to [atoi]. *)
Inductive MainResult :=
| Main_returns (status : Z) (events : list Event)
| Main_atoi_of_null.

(** [main(argc, argv)], with [argc = length argv]; [argv[argc]] is the
    null pointer that ends the argument vector.  Before [Run] it prints
    the names of the index file and of the output cloud (and the numbers
    [beg] and [end], left out as every line that prints a number). *)
Definition main (M_uninit : Matrix) (T_uninit : Affine3d) (argv : list string)
    : MainResult :=
  let argc := Z.of_nat (length argv) in
  if argc <? 5 then
    Main_returns 1
      [Cout "Must specify the data index file, output cloud name, and max ray length."]
  else
    let index_file := nth 1 argv ""%string in
    let out_cloud := nth 2 argv ""%string in
    let max_ray_length_m := atof (nth 3 argv ""%string) in
    let voxel_size := atof (nth 4 argv ""%string) in
    let run beg end_ :=
      Main_returns 0
        ([Cout ("index file is " ++ index_file);
          Cout ("output cloud is " ++ out_cloud)]
         ++ Run M_uninit T_uninit index_file out_cloud max_ray_length_m
              voxel_size beg end_) in
    if 6 <=? argc then
      match argv !! 6%nat with
      | Some end_arg => run (atoi (nth 5 argv ""%string)) (atoi end_arg)
      | None => Main_atoi_of_null
      end
    else run 0 INT_MAX.

(** The clouds [Run] integrates when every file can be read: the entries
    of the index whose position is in [[beg, end_)], in order. *)
Fixpoint window (i : Z) (files : list (string * string)) (beg end_ : Z)
    : list (string * string) :=
  match files with
  | [] => []
  | f :: files' =>
      if (i <? beg) || (end_ <=? i)
      then window (i + 1) files' beg end_
      else f :: window (i + 1) files' beg end_
  end.

(** The [IntegratePointCloud] events of a trace. *)
Definition integrated (events : list Event) : list (Affine3d * PointCloud) :=
  omap (fun e => match e with
                 | IntegratePointCloud T c => Some (T, c)
                 | _ => None
                 end) events.

(** Whether a trace calls [outputMeshLayerAsPly], that is, whether the
    write of the mesh is attempted. *)
Definition writes_mesh (events : list Event) : bool :=
  existsb (fun e => match e with
                    | OutputMeshLayerAsPly _ => true
                    | _ => false
                    end) events.
End BatchTsdf.

(* ===================================================================== *)
(** ** A concrete run of the batch driver *)
(* ===================================================================== *)

(** Number files: a complete pose, a pose that breaks off at a token
    that is not a number; every other name cannot be opened. *)
Definition ex_open_numbers (name : string) : list (option Z) :=
  if String.eqb name "pose_ok.txt"
  then Some <$> [1; 0; 0; 5; 0; 1; 0; 6; 0; 0; 1; 7; 0; 0; 0; 1]
  else if String.eqb name "pose_short.txt" then [Some 1; Some 2; None]
  else [].

(** The index file: three pose/cloud pairs and a word without partner. *)
Definition ex_open_words (name : string) : list string :=
  ["pose_ok.txt"; "a.pcd"; "pose_short.txt"; "b.pcd";
   "pose_ok.txt"; "missing.pcd"; "dangling"]%string.

(** Two clouds can be read, every other name cannot. *)
Definition ex_loadPCDFile (name : string) : option nat :=
  if String.eqb name "a.pcd" then Some 1%nat
  else if String.eqb name "b.pcd" then Some 2%nat
  else None.

(** An index file of two clouds whose pose files are both complete. *)
Definition ex_open_words_read (name : string) : list string :=
  ["pose_ok.txt"; "a.pcd"; "pose_ok.txt"; "b.pcd"]%string.

Definition ex_M_uninit : Matrix Z := fun _ _ => 0.
Definition ex_T_uninit : Affine3d Z := mkAffine3d Z [] [].

(** The driver over these files, exact arithmetic, [double] read as
    integers. *)
Definition ex_Run (beg end_ : Z) : list (@Event ExactArith Z nat) :=
  @Run ExactArith Z nat ex_open_numbers ex_open_words ex_loadPCDFile
    (fun _ => true) Qc_of_Z ex_M_uninit ex_T_uninit
    "index.txt" "mesh.ply" 5 1 beg end_.

Definition ex_main (argv : list string) : MainResult Z nat :=
  @main ExactArith Z nat ex_open_numbers ex_open_words ex_loadPCDFile
    (fun _ => true) (fun _ => 1) (fun _ => 2) Qc_of_Z ex_M_uninit ex_T_uninit
    argv.

(** Three calls on a layer: allocate, look up elsewhere, remove. *)
Definition ex_calls : list (@LayerCall ExactArith) :=
  [Call_allocateBlockPtrByIndex (2, 0, 0);
   Call_getBlockPtrByCoordinates point_c;
   Call_removeBlock (2, 0, 0)].

(* ===================================================================== *)
(** ** Equations of the member functions *)
(* ===================================================================== *)

Section LayerFacts.
Context {FPA : FloatingPointArith} {VoxelType : Type}.
Variable default_voxel : VoxelType.
Variable dcheck_enabled : bool.

Abbreviation World' := (@World FPA VoxelType).
Abbreviation allocNew := (@allocateNewBlock FPA VoxelType default_voxel dcheck_enabled).
Abbreviation allocPtr := (@allocateBlockPtrByIndex FPA VoxelType default_voxel dcheck_enabled).

(** The world after a successful insertion of a new block at [i]. *)
Definition with_new_block (i : BlockIndex) (w : World') : World' :=
  let L := layer w in
  let p := fresh (dom (free_store w)) in
  {| layer := {| voxel_size_ := voxel_size_ L;
                 voxels_per_side_ := voxels_per_side_ L;
                 block_size_ := block_size_ L;
                 block_size_inv_ := block_size_inv_ L;
                 block_map_ := <[i := p]> (block_map_ L) |};
     free_store := <[p := Block_ctor default_voxel (voxels_per_side_ L) (voxel_size_ L)
                           (Point_scale (BlockIndex_cast i) (block_size_ L))]>
                   (free_store w);
     glog := glog w |}.

(** The world after [block_map_.erase(i)]. *)
Definition without_block (i : BlockIndex) (w : World') : World' :=
  let L := layer w in
  {| layer := {| voxel_size_ := voxel_size_ L;
                 voxels_per_side_ := voxels_per_side_ L;
                 block_size_ := block_size_ L;
                 block_size_inv_ := block_size_inv_ L;
                 block_map_ := delete i (block_map_ L) |};
     free_store := free_store w;
     glog := glog w |}.

Lemma fresh_ptr_unused (w : World') :
  free_store w !! fresh (dom (free_store w)) = None.
Proof. apply not_elem_of_dom, is_fresh. Qed.

Lemma getBlockByIndex_eq (i : BlockIndex) (w : World') :
  getBlockByIndex i w =
  match block_map_ (layer w) !! i with
  | Some p => Returns p w
  | None => Aborts "Accessed unallocated block at " i
  end.
Proof.
  unfold getBlockByIndex, bind, get_layer.
  destruct (block_map_ (layer w) !! i); reflexivity.
Qed.

Lemma getBlockPtrByIndex_eq (i : BlockIndex) (w : World') :
  getBlockPtrByIndex i w =
  match block_map_ (layer w) !! i with
  | Some p => Returns (Some p) w
  | None => Returns None
              {| layer := layer w; free_store := free_store w;
                 glog := glog w ++ [(WARNING, "Returning null ptr to block!"%string)] |}
  end.
Proof.
  unfold getBlockPtrByIndex, bind, get_layer.
  destruct (block_map_ (layer w) !! i); reflexivity.
Qed.

Lemma allocateNewBlock_absent (i : BlockIndex) (w : World') :
  block_map_ (layer w) !! i = None ->
  allocNew i w = Returns (fresh (dom (free_store w))) (with_new_block i w).
Proof.
  intros Habs.
  unfold allocateNewBlock, block_map_insert, bind, get_layer, new_block; simpl.
  rewrite Habs; simpl.
  unfold DCHECK; simpl. rewrite bool_decide_true by done. simpl.
  rewrite andb_false_r. reflexivity.
Qed.

Lemma allocateNewBlock_present (i : BlockIndex) (q : BlockPtr) (w : World') :
  block_map_ (layer w) !! i = Some q ->
  allocNew i w =
  if dcheck_enabled
  then Aborts "Block already exists when allocating at " i
  else Returns q w.
Proof.
  intros Hpre.
  unfold allocateNewBlock, block_map_insert, bind, get_layer, new_block; simpl.
  rewrite Hpre; simpl.
  unfold DCHECK; simpl. rewrite bool_decide_true by done. simpl.
  rewrite andb_true_r, andb_false_r.
  destruct dcheck_enabled; simpl; [reflexivity |].
  unfold ret. f_equal.
  rewrite delete_insert_eq, delete_id by apply fresh_ptr_unused.
  destruct w; reflexivity.
Qed.

Lemma allocateBlockPtrByIndex_eq (i : BlockIndex) (w : World') :
  allocPtr i w =
  match block_map_ (layer w) !! i with
  | Some p => Returns p w
  | None => Returns (fresh (dom (free_store w))) (with_new_block i w)
  end.
Proof.
  unfold allocateBlockPtrByIndex, bind, get_layer.
  destruct (block_map_ (layer w) !! i) eqn:E; [reflexivity |].
  by apply allocateNewBlock_absent.
Qed.

Lemma removeBlock_eq (i : BlockIndex) (w : World') :
  removeBlock i w = Returns tt (without_block i w).
Proof. reflexivity. Qed.

Lemma filter_key_absent {V} (l : list (BlockIndex * V)) (i : BlockIndex) :
  i ∉ l.*1 -> filter (fun kv => kv.1 = i) l = [].
Proof.
  induction l as [| [k v] l IH]; simpl; intros Hni; [reflexivity |].
  apply not_elem_of_cons in Hni as [Hne Hni].
  rewrite filter_cons. destruct (decide ((k, v).1 = i)) as [Heq | _].
  - simpl in Heq. congruence.
  - by apply IH.
Qed.

(** A list whose keys are pairwise distinct holds at most one entry per
    key. *)
Lemma filter_key_length {V} (l : list (BlockIndex * V)) (i : BlockIndex) :
  NoDup l.*1 -> (length (filter (fun kv => kv.1 = i) l) <= 1)%nat.
Proof.
  induction l as [| [k v] l IH]; simpl; intros Hnd; [lia |].
  apply NoDup_cons in Hnd as [Hk Hnd].
  rewrite filter_cons. destruct (decide ((k, v).1 = i)) as [Heq | Hne].
  - simpl in Heq. subst k. simpl.
    rewrite (filter_key_absent l i Hk). simpl. lia.
  - by apply IH.
Qed.

Lemma blocks_at_unique (L : @Layer FPA) (i : BlockIndex) :
  (length (blocks_at L i) <= 1)%nat.
Proof.
  unfold blocks_at. rewrite length_fmap.
  apply filter_key_length, NoDup_fst_map_to_list.
Qed.

Lemma Layer_inv_with_new_block (i : BlockIndex) (w : World') :
  block_map_ (layer w) !! i = None ->
  Layer_inv w -> Layer_inv (with_new_block i w).
Proof.
  intros Habs [Hu Hl Ha Hg].
  pose proof (fresh_ptr_unused w) as Hfresh.
  set (p := fresh (dom (free_store w))) in *.
  assert (Hnot : forall j, block_map_ (layer w) !! j <> Some p).
  { intros j Hj. apply Hl in Hj as [b Hb]. congruence. }
  split; unfold with_new_block; simpl; fold p.
  - intros j. apply blocks_at_unique.
  - intros j q Hj. destruct (decide (j = i)) as [-> | Hne].
    + rewrite lookup_insert_eq in Hj. injection Hj as <-.
      rewrite lookup_insert_eq. eauto.
    + rewrite lookup_insert_ne in Hj by done.
      destruct (decide (q = p)) as [-> | Hqp]; [by apply Hnot in Hj |].
      rewrite lookup_insert_ne by done. by eapply Hl.
  - intros j k q Hj Hk.
    destruct (decide (j = i)) as [-> | Hji], (decide (k = i)) as [-> | Hki];
      try done.
    + rewrite lookup_insert_eq in Hj. injection Hj as <-.
      rewrite lookup_insert_ne in Hk by done. by apply Hnot in Hk.
    + rewrite lookup_insert_eq in Hk. injection Hk as <-.
      rewrite lookup_insert_ne in Hj by done. by apply Hnot in Hj.
    + rewrite lookup_insert_ne in Hj, Hk by done. by eapply Ha.
  - intros j q b Hj Hb. destruct (decide (j = i)) as [-> | Hne].
    + rewrite lookup_insert_eq in Hj. injection Hj as <-.
      rewrite lookup_insert_eq in Hb. injection Hb as <-. done.
    + rewrite lookup_insert_ne in Hj by done.
      destruct (decide (q = p)) as [-> | Hqp]; [by apply Hnot in Hj |].
      rewrite lookup_insert_ne in Hb by done. by eapply Hg.
Qed.

Lemma Layer_inv_without_block (i : BlockIndex) (w : World') :
  Layer_inv w -> Layer_inv (without_block i w).
Proof.
  intros [Hu Hl Ha Hg].
  split; unfold without_block; simpl.
  - intros j. apply blocks_at_unique.
  - intros j q Hj. apply lookup_delete_Some in Hj as [_ Hj]. by eapply Hl.
  - intros j k q Hj Hk.
    apply lookup_delete_Some in Hj as [_ Hj].
    apply lookup_delete_Some in Hk as [_ Hk]. by eapply Ha.
  - intros j q b Hj Hb. apply lookup_delete_Some in Hj as [_ Hj]. by eapply Hg.
Qed.

Lemma Layer_inv_log (w : World') (entries : list (Severity * string)) :
  Layer_inv w ->
  Layer_inv {| layer := layer w; free_store := free_store w;
               glog := glog w ++ entries |}.
Proof. intros [Hu Hl Ha Hg]. split; simpl; done. Qed.

End LayerFacts.

(* ===================================================================== *)
(** ** The layer as a map: allocation, lookup, removal *)
(* ===================================================================== *)

Section LayerClaims.
Context {FPA : FloatingPointArith} {VoxelType : Type}.
Variable default_voxel : VoxelType.
Variable dcheck_enabled : bool.

Abbreviation WorldT := (@World FPA VoxelType).
Abbreviation allocateNewBlock' :=
  (@allocateNewBlock FPA VoxelType default_voxel dcheck_enabled).
Abbreviation allocateBlockPtrByIndex' :=
  (@allocateBlockPtrByIndex FPA VoxelType default_voxel dcheck_enabled).
Abbreviation allocateBlockPtrByCoordinates' :=
  (@allocateBlockPtrByCoordinates FPA VoxelType default_voxel dcheck_enabled).
Abbreviation allocateNewBlockByCoordinates' :=
  (@allocateNewBlockByCoordinates FPA VoxelType default_voxel dcheck_enabled).

(** C2. A first [allocateBlockPtrByIndex(i)] on a layer with no block at
    [i] returns a handle that was not in use, stores exactly one new,
    freshly constructed block under [i], and raises the number of
    allocated blocks by one; a second call returns the same handle and
    changes nothing, and so does any later call made while the block is
    still stored under [i]. *)
Theorem allocateBlockPtrByIndex_idempotent (i : BlockIndex) (w : WorldT) :
  block_map_ (layer w) !! i = None ->
  exists (p : BlockPtr) (w1 : WorldT),
    allocateBlockPtrByIndex' i w = Returns p w1
    /\ free_store w !! p = None
    /\ block_map_ (layer w1) = <[i := p]> (block_map_ (layer w))
    /\ free_store w1 =
         <[p := Block_ctor default_voxel (voxels_per_side_ (layer w))
                  (voxel_size_ (layer w))
                  (Point_scale (BlockIndex_cast i) (block_size_ (layer w)))]>
         (free_store w)
    /\ getNumberOfAllocatedBlocks (layer w1)
       = S (getNumberOfAllocatedBlocks (layer w))
    /\ allocateBlockPtrByIndex' i w1 = Returns p w1
    /\ (forall w2 : WorldT,
          block_map_ (layer w2) !! i = Some p ->
          allocateBlockPtrByIndex' i w2 = Returns p w2).
Proof.
  intros Habs.
  exists (fresh (dom (free_store w))), (with_new_block default_voxel i w).
  assert (Hlater : forall (q : BlockPtr) (w2 : WorldT),
             block_map_ (layer w2) !! i = Some q ->
             allocateBlockPtrByIndex' i w2 = Returns q w2).
  { intros q w2 Hq. rewrite allocateBlockPtrByIndex_eq, Hq. reflexivity. }
  repeat split.
  - rewrite allocateBlockPtrByIndex_eq, Habs. reflexivity.
  - apply fresh_ptr_unused.
  - unfold getNumberOfAllocatedBlocks, with_new_block; simpl.
    by apply map_size_insert_None.
  - apply Hlater. unfold with_new_block; simpl. apply lookup_insert_eq.
  - apply Hlater.
Qed.

(** C3. The layer holds at most one block per block index, and the
    representation invariant is kept by allocation, lookup and removal,
    each of which returns.  [allocateNewBlock] never overwrites: on an
    index already present the map and the blocks stay as they were, and
    the call is stopped by the [DCHECK] in a debug build; the
    lookup-or-insert [allocateBlockPtrByIndex] never reaches that case. *)
Theorem Layer_one_block_per_index (i : BlockIndex) (w : WorldT) :
  Layer_inv w ->
  (forall j, (length (blocks_at (layer w) j) <= 1)%nat)
  /\ (exists p w', allocateBlockPtrByIndex' i w = Returns p w'
                   /\ Layer_inv w'
                   /\ forall q, block_map_ (layer w) !! i = Some q ->
                                p = q /\ w' = w)
  /\ (exists r w', getBlockPtrByIndex i w = Returns r w' /\ Layer_inv w'
                   /\ block_map_ (layer w') = block_map_ (layer w))
  /\ (forall p w', getBlockByIndex i w = Returns p w' -> w' = w)
  /\ (exists w', removeBlock i w = Returns tt w' /\ Layer_inv w')
  /\ (block_map_ (layer w) !! i = None ->
      exists p w', allocateNewBlock' i w = Returns p w' /\ Layer_inv w'
                   /\ block_map_ (layer w') = <[i := p]> (block_map_ (layer w)))
  /\ (forall q, block_map_ (layer w) !! i = Some q ->
      allocateNewBlock' i w =
      if dcheck_enabled
      then Aborts "Block already exists when allocating at " i
      else Returns q w).
Proof.
  intros Hinv. split; [apply Hinv |].
  split.
  { rewrite allocateBlockPtrByIndex_eq.
    destruct (block_map_ (layer w) !! i) as [q |] eqn:E.
    - exists q, w. split; [reflexivity |]. split; [done |].
      intros q' [= ->]. done.
    - eexists _, _. split; [reflexivity |]. split; [| done].
      by apply Layer_inv_with_new_block. }
  split.
  { rewrite getBlockPtrByIndex_eq.
    destruct (block_map_ (layer w) !! i) as [q |] eqn:E.
    - by exists (Some q), w.
    - eexists _, _. split; [reflexivity |]. split; [| done].
      by apply Layer_inv_log. }
  split.
  { intros p w'. rewrite getBlockByIndex_eq.
    destruct (block_map_ (layer w) !! i); [| done]. by intros [= _ ->]. }
  split.
  { eexists. split; [apply removeBlock_eq |]. by apply Layer_inv_without_block. }
  split.
  { intros Habs. eexists _, _. split; [by apply allocateNewBlock_absent |].
    split; [by apply Layer_inv_with_new_block | done]. }
  intros q Hq. by apply allocateNewBlock_present.
Qed.

(** C4. [getBlockByIndex(i)] ends the program with [LOG(FATAL)] when no
    block is stored at [i] (it returns nothing, in particular no default
    block), and returns the handle stored at [i], leaving the state as it
    was, when there is one. *)
Theorem getBlockByIndex_fail_fast (i : BlockIndex) (w : WorldT) :
  (block_map_ (layer w) !! i = None ->
     getBlockByIndex i w = Aborts "Accessed unallocated block at " i)
  /\ (forall p, block_map_ (layer w) !! i = Some p ->
        getBlockByIndex i w = Returns p w).
Proof.
  rewrite getBlockByIndex_eq. split.
  - by intros ->.
  - by intros p ->.
Qed.

(** C5. [getBlockPtrByIndex(i)] always returns: the handle stored at [i]
    when there is one, the null handle otherwise; the layer and the
    blocks are as before (an absent block adds one warning to the log). *)
Theorem getBlockPtrByIndex_total (i : BlockIndex) (w : WorldT) :
  exists (r : option BlockPtr) (w' : WorldT),
    getBlockPtrByIndex i w = Returns r w'
    /\ r = block_map_ (layer w) !! i
    /\ layer w' = layer w
    /\ free_store w' = free_store w
    /\ glog w' = match r with
                 | Some _ => glog w
                 | None => glog w ++ [(WARNING, "Returning null ptr to block!"%string)]
                 end.
Proof.
  rewrite getBlockPtrByIndex_eq.
  destruct (block_map_ (layer w) !! i) as [p |]; eexists _, _; by repeat split.
Qed.

(** C9. [removeBlock(i)] returns; afterwards no block is stored at [i].
    When one was stored the number of allocated blocks drops by one, and
    when none was the state is unchanged.  The entries at all other
    indices, the blocks they point to, the geometry and the log are as
    before. *)
Theorem removeBlock_frame (i : BlockIndex) (w : WorldT) :
  exists w' : WorldT,
    removeBlock i w = Returns tt w'
    /\ block_map_ (layer w') !! i = None
    /\ (is_Some (block_map_ (layer w) !! i) ->
        S (getNumberOfAllocatedBlocks (layer w'))
        = getNumberOfAllocatedBlocks (layer w))
    /\ (block_map_ (layer w) !! i = None -> w' = w)
    /\ (forall j, j <> i ->
          block_map_ (layer w') !! j = block_map_ (layer w) !! j)
    /\ (forall j p, j <> i -> block_map_ (layer w) !! j = Some p ->
          block_map_ (layer w') !! j = Some p
          /\ free_store w' !! p = free_store w !! p)
    /\ geometry (layer w') = geometry (layer w)
    /\ glog w' = glog w.
Proof.
  exists (without_block i w). split; [apply removeBlock_eq |].
  unfold without_block, getNumberOfAllocatedBlocks; simpl.
  repeat split.
  - apply lookup_delete_eq.
  - intros [p Hp]. rewrite map_size_delete, Hp.
    assert (size (block_map_ (layer w)) <> 0%nat); [| lia].
    intros Hz. apply map_size_empty_inv in Hz. rewrite Hz in Hp.
    by rewrite lookup_empty in Hp.
  - intros Habs. rewrite delete_id by done. by destruct w as [[] ? ?].
  - intros j Hne. by apply lookup_delete_ne.
  - by rewrite lookup_delete_ne.
Qed.

(** C10. Each coordinate-based member function is the index-based one
    applied to [computeBlockIndexFromCoordinates(coords)]; hence two
    points with the same block index give the same result and the same
    final state in every one of them. *)
Theorem ByCoordinates_is_ByIndex (coords : Point) (w : WorldT) :
  let i := computeBlockIndexFromCoordinates (layer w) coords in
  getBlockPtrByCoordinates coords w = getBlockPtrByIndex i w
  /\ allocateBlockPtrByCoordinates' coords w = allocateBlockPtrByIndex' i w
  /\ allocateNewBlockByCoordinates' coords w = allocateNewBlock' i w
  /\ removeBlockByCoordinates coords w = removeBlock i w
  /\ (forall coords' : Point,
        computeBlockIndexFromCoordinates (layer w) coords' = i ->
        getBlockPtrByCoordinates coords' w = getBlockPtrByCoordinates coords w
        /\ allocateBlockPtrByCoordinates' coords' w
           = allocateBlockPtrByCoordinates' coords w
        /\ allocateNewBlockByCoordinates' coords' w
           = allocateNewBlockByCoordinates' coords w
        /\ removeBlockByCoordinates coords' w = removeBlockByCoordinates coords w).
Proof.
  intros i.
  assert (Hget : forall c, getBlockPtrByCoordinates c w
    = getBlockPtrByIndex (computeBlockIndexFromCoordinates (layer w) c) w)
    by reflexivity.
  assert (Halloc : forall c, allocateBlockPtrByCoordinates' c w
    = allocateBlockPtrByIndex' (computeBlockIndexFromCoordinates (layer w) c) w)
    by reflexivity.
  assert (Hnew : forall c, allocateNewBlockByCoordinates' c w
    = allocateNewBlock' (computeBlockIndexFromCoordinates (layer w) c) w)
    by reflexivity.
  assert (Hrem : forall c, removeBlockByCoordinates c w
    = removeBlock (computeBlockIndexFromCoordinates (layer w) c) w)
    by reflexivity.
  do 4 (split; [done |]).
  intros coords' Hsame. subst i.
  rewrite !Hget, !Halloc, !Hnew, !Hrem, Hsame. done.
Qed.

End LayerClaims.

(* ===================================================================== *)
(** ** Coordinates to block index *)
(* ===================================================================== *)

Lemma Qc_mul_recip (x b : Qc) : (x * (1 / b))%Qc = (x / b)%Qc.
Proof. unfold Qcdiv. by rewrite Qcmult_1_l. Qed.

(** In [float] arithmetic the product with the stored reciprocal can
    round up to the next integer: with block size 3 the coordinate
    [15 - 2^-20] lies in block 4 but is mapped to block 5. *)
Lemma computeBlockIndexFromCoordinates_not_exact_floor_f32 :
  let p := (f32_below_15, f32_below_15, f32_below_15) in
  block_size_ layer_f32_block_3 = S754_finite false 12582912 (-22)
  /\ computeBlockIndexFromCoordinates layer_f32_block_3 p = (5, 5, 5)
  /\ floor_of_quotient layer_f32_block_3 p = (4, 4, 4)
  /\ computeBlockIndexFromCoordinates layer_f32_block_3 p
     <> floor_of_quotient layer_f32_block_3 p.
Proof.
  assert (H5 : computeBlockIndexFromCoordinates layer_f32_block_3
                 (f32_below_15, f32_below_15, f32_below_15) = (5, 5, 5))
    by (vm_compute; reflexivity).
  assert (H4 : floor_of_quotient layer_f32_block_3
                 (f32_below_15, f32_below_15, f32_below_15) = (4, 4, 4))
    by (vm_compute; reflexivity).
  cbv zeta. rewrite H5, H4.
  split; [vm_compute; reflexivity |]. repeat split. discriminate.
Qed.

(** The same happens in [double] arithmetic: with block size 3/4 the
    coordinate just below -30 lies in block -41 but is mapped to -40. *)
Lemma computeBlockIndexFromCoordinates_not_exact_floor_f64 :
  let p := (f64_below_minus_30, f64_below_minus_30, f64_below_minus_30) in
  computeBlockIndexFromCoordinates layer_f64_block_0_75 p = (-40, -40, -40)
  /\ floor_of_quotient layer_f64_block_0_75 p = (-41, -41, -41).
Proof. split; vm_compute; reflexivity. Qed.

Lemma Qc_floor_Q2Qc (q : Q) : Qc_floor (Q2Qc q) = Qfloor q.
Proof. unfold Qc_floor. simpl. apply Qfloor_comp, Qred_correct. Qed.

(** The floor of the float model is the floor of the real number the
    float denotes: towards minus infinity, for either sign. *)
Lemma ieee_floor_is_floor (x : spec_float) :
  ieee_floor x = Qc_floor (ieee_val x).
Proof.
  destruct x as [s | s | | s m e]; try reflexivity.
  unfold ieee_floor, ieee_val. rewrite Qc_floor_Q2Qc.
  set (z := cond_Zopp s (Zpos m)).
  destruct e as [| p | p]; cbn [Z.leb Z.compare].
  - rewrite Z.shiftl_0_r. unfold pow2_Q.
    rewrite (Qfloor_comp _ (inject_Z z)); [symmetry; apply Qfloor_Z | ring].
  - unfold pow2_Q. rewrite Z.shiftl_mul_pow2 by lia.
    rewrite (Qfloor_comp _ (inject_Z (z * Z.pow_pos 2 p))).
    + rewrite Qfloor_Z. reflexivity.
    + rewrite inject_Z_mult. reflexivity.
  - unfold pow2_Q. change (- Z.neg p) with (Z.pos p).
    rewrite Z.shiftr_div_pow2 by lia.
    unfold Qfloor, Qmult, inject_Z. simpl Qnum. simpl Qden.
    rewrite Z.mul_1_r. rewrite Pos.mul_1_l. rewrite Pos2Z.inj_pow. reflexivity.
Qed.

Lemma Qc_floor_negative (q : Qc) : (q < 0)%Qc -> Qc_floor q <= -1.
Proof.
  unfold Qc_floor, Qclt. intros Hneg.
  assert (Qfloor q < 0); [| lia].
  rewrite Zlt_Qlt. eapply Qle_lt_trans; [apply Qfloor_le | exact Hneg].
Qed.

(** C1 (amended). In the float arithmetic of the program, for every
    point the code can index (the three products with the stored
    reciprocal of the block size are numbers and their floors fit the
    32-bit index type), the block index is on every axis the floor, as a
    real number, of the rounded product: towards minus infinity, so a
    negative product is never mapped to block 0.  In exact arithmetic
    that floor is the floor of [coords / block_size] for coordinates of
    any sign.  With voxel size 0.1 and 16 voxels per side the [float]
    point (-0.1, -0.1, -0.1) is mapped to (-1, -1, -1). *)
Theorem computeBlockIndexFromCoordinates_floor (prec emax : Z)
    (L : @Layer (IEEEArith prec emax)) (coords : @Point (IEEEArith prec emax))
    (LQ : @Layer ExactArith) (coordsQ : @Point ExactArith) :
  indexable L coords ->
  block_size_inv_ LQ = @fp_recip ExactArith (block_size_ LQ) ->
  computeBlockIndexFromCoordinates L coords = floor_of_product L coords
  /\ BlockIndex_representable (computeBlockIndexFromCoordinates L coords)
  /\ negative_goes_down L coords
  /\ computeBlockIndexFromCoordinates LQ coordsQ = floor_of_quotient LQ coordsQ
  /\ (let m := @fp_opp Binary32 f32_tenth in
      computeBlockIndexFromCoordinates layer_f32_block_1_6 (m, m, m)
        = (-1, -1, -1)
      /\ floor_of_quotient layer_f32_block_1_6 (m, m, m) = (-1, -1, -1)).
Proof.
  intros Hidx Hinv.
  assert (Heq : computeBlockIndexFromCoordinates L coords
                = floor_of_product L coords).
  { destruct coords as [[x0 x1] x2].
    unfold computeBlockIndexFromCoordinates, floor_of_product,
      floorVectorAndDowncast, Point_scale. cbn.
    by rewrite !ieee_floor_is_floor. }
  split; [exact Heq |]. split.
  { rewrite Heq. destruct coords as [[x0 x1] x2]. apply Hidx. }
  split.
  { unfold negative_goes_down. rewrite Heq.
    destruct coords as [[x0 x1] x2]. unfold floor_of_product.
    repeat split; apply Qc_floor_negative. }
  split.
  - destruct coordsQ as [[x0 x1] x2].
    unfold computeBlockIndexFromCoordinates, floor_of_quotient,
      floorVectorAndDowncast, Point_scale.
    rewrite Hinv. cbn. by rewrite !Qc_mul_recip.
  - split; vm_compute; reflexivity.
Qed.

(** The [float] point (-0.1, 1.6, -1.6) at block size 1.6, and the exact
    point (-0.1, 1.6, -1.6). *)
Lemma computeBlockIndexFromCoordinates_floor_witness :
  computeBlockIndexFromCoordinates layer_f32_block_1_6
    (@fp_opp Binary32 f32_tenth, block_size_ layer_f32_block_1_6,
     @fp_opp Binary32 (block_size_ layer_f32_block_1_6))
  = (-1, 1, -1)
  /\ computeBlockIndexFromCoordinates layer_exact_block_1_6 point_c
     = (-1, 1, -1).
Proof.
  destruct (computeBlockIndexFromCoordinates_floor 24 128
              layer_f32_block_1_6
              (@fp_opp Binary32 f32_tenth, block_size_ layer_f32_block_1_6,
               @fp_opp Binary32 (block_size_ layer_f32_block_1_6))
              layer_exact_block_1_6 point_c)
    as (Hf & _ & _ & Hq & _).
  - vm_compute. repeat split; discriminate.
  - reflexivity.
  - split.
    + etransitivity; [exact Hf |]. vm_compute. reflexivity.
    + etransitivity; [exact Hq |]. vm_compute. reflexivity.
Defined.

(* ===================================================================== *)
(** ** The weighted-merge rule in exact arithmetic *)
(* ===================================================================== *)

Section ExactMerge.
Local Open Scope Qc_scope.

Abbreviation voxel := (@TsdfVoxel ExactArith).
Abbreviation update := (@updateTsdfVoxel ExactArith).

Lemma Qc_ltb_ge (x y : Qc) : y <= x -> Qc_ltb x y = false.
Proof.
  intros Hle. unfold Qc_ltb.
  destruct (x ?= y) eqn:E; try reflexivity.
  apply Qclt_alt in E. by apply Qcle_not_lt in Hle.
Qed.

Lemma Qc_ltb_false (x y : Qc) : Qc_ltb x y = false -> y <= x.
Proof.
  unfold Qc_ltb. intros H. apply Qcnot_lt_le. intros Hlt.
  apply Qclt_alt in Hlt. change ((x ?= y) = Lt) in Hlt.
  rewrite Hlt in H. discriminate.
Qed.

Lemma fp_clamp_in_band (tau x : Qc) :
  - tau <= x -> x <= tau -> @fp_clamp ExactArith x (- tau) tau = x.
Proof.
  intros Hlo Hhi. unfold fp_clamp; cbn.
  by rewrite (Qc_ltb_ge x (- tau)), (Qc_ltb_ge tau x).
Qed.

Lemma Qc_sum_pos (a b : Qc) : 0 <= a -> 0 < b -> 0 < a + b.
Proof.
  intros Ha Hb. apply Qclt_le_trans with (0 + b).
  - by rewrite Qcplus_0_l.
  - apply Qcplus_le_compat; [done | apply Qcle_refl].
Qed.

Lemma Qc_le_div (a t W : Qc) : 0 < W -> a <= t * W -> a / W <= t.
Proof.
  intros HW Hle. apply Qcmult_lt_0_le_reg_r with W; [done |].
  replace (a / W * W) with a; [done |].
  field. by apply not_eq_sym, Qclt_not_eq.
Qed.

Lemma Qc_div_le (a t W : Qc) : 0 < W -> t * W <= a -> t <= a / W.
Proof.
  intros HW Hle. apply Qcmult_lt_0_le_reg_r with W; [done |].
  replace (a / W * W) with a; [done |].
  field. by apply not_eq_sym, Qclt_not_eq.
Qed.

(** A weighted mean of two values of the band stays in the band. *)
Lemma weighted_mean_in_band (tau d0 w0 d1 w1 : Qc) :
  - tau <= d0 -> d0 <= tau -> - tau <= d1 -> d1 <= tau ->
  0 <= w0 -> 0 < w1 ->
  - tau <= (d0 * w0 + d1 * w1) / (w0 + w1)
  /\ (d0 * w0 + d1 * w1) / (w0 + w1) <= tau.
Proof.
  intros Hl0 Hh0 Hl1 Hh1 Hw0 Hw1.
  pose proof (Qc_sum_pos w0 w1 Hw0 Hw1) as HW.
  pose proof (Qclt_le_weak _ _ Hw1) as Hw1'.
  split.
  - apply Qc_div_le; [done |]. rewrite Qcmult_plus_distr_r.
    apply Qcplus_le_compat; by apply Qcmult_le_compat_r.
  - apply Qc_le_div; [done |]. rewrite Qcmult_plus_distr_r.
    apply Qcplus_le_compat; by apply Qcmult_le_compat_r.
Qed.

(** Inside the band the clamp of the rule is the identity. *)
Lemma update_in_band (tau : Qc) (v o : voxel) :
  in_band tau v -> in_band tau o -> 0 <= weight v -> 0 < weight o ->
  update tau v o =
    @mkTsdfVoxel ExactArith
      ((distance v * weight v + distance o * weight o) / (weight v + weight o))
      (weight v + weight o)
  /\ in_band tau (update tau v o)
  /\ 0 < weight (update tau v o).
Proof.
  intros [Hl0 Hh0] [Hl1 Hh1] Hw0 Hw1.
  destruct (weighted_mean_in_band tau _ _ _ _ Hl0 Hh0 Hl1 Hh1 Hw0 Hw1)
    as [Hlo Hhi].
  assert (Heq : update tau v o =
    @mkTsdfVoxel ExactArith
      ((distance v * weight v + distance o * weight o) / (weight v + weight o))
      (weight v + weight o)).
  { unfold updateTsdfVoxel. cbn. f_equal. by apply fp_clamp_in_band. }
  rewrite Heq. split; [done |]. split; [by split |].
  cbn. by apply Qc_sum_pos.
Qed.

(** Two in-band observations applied one after the other give the
    weighted mean of all three values. *)
Lemma update_twice (tau : Qc) (v o1 o2 : voxel) :
  in_band tau v -> in_band tau o1 -> in_band tau o2 ->
  0 <= weight v -> 0 < weight o1 -> 0 < weight o2 ->
  update tau (update tau v o1) o2 =
    @mkTsdfVoxel ExactArith
      ((distance v * weight v + distance o1 * weight o1
        + distance o2 * weight o2) / (weight v + weight o1 + weight o2))
      (weight v + weight o1 + weight o2).
Proof.
  intros Hv H1 H2 Hw0 Hw1 Hw2.
  destruct (update_in_band tau v o1 Hv H1 Hw0 Hw1) as (E1 & Hb1 & Hp1).
  destruct (update_in_band tau _ o2 Hb1 H2 (Qclt_le_weak _ _ Hp1) Hw2)
    as (E2 & _ & _).
  rewrite E2, E1. cbn. f_equal.
  pose proof (Qc_sum_pos _ _ Hw0 Hw1) as HW.
  replace ((distance v * weight v + distance o1 * weight o1)
           / (weight v + weight o1) * (weight v + weight o1))
    with (distance v * weight v + distance o1 * weight o1); [done |].
  field. by apply not_eq_sym, Qclt_not_eq.
Qed.

Lemma weight_update (tau : Qc) (v o : voxel) :
  weight (update tau v o) = weight v + weight o.
Proof. reflexivity. Qed.

Lemma weight_integrate_mono (tau : Qc) (obs : list voxel) :
  forall v : voxel,
  Forall (fun o : voxel => 0 <= weight o) obs ->
  weight v <= weight (@integrateObservations ExactArith tau v obs).
Proof.
  induction obs as [| o obs IH]; intros v Hall; simpl.
  - apply Qcle_refl.
  - apply Forall_cons in Hall as [Ho Hall].
    apply Qcle_trans with (weight (update tau v o)); [| by apply IH].
    rewrite weight_update. rewrite <- (Qcplus_0_r (weight v)) at 1.
    apply Qcplus_le_compat; [apply Qcle_refl | done].
Qed.

(** Without the band the clamp makes the order matter: from the default
    voxel, the far observation followed by [obs_minus] ends at 0.05,
    the other order ends at 0.2. *)
Lemma updateTsdfVoxel_order_outside_band :
  update tau_example (update tau_example TsdfVoxel_default obs_far) obs_minus
  <> update tau_example (update tau_example TsdfVoxel_default obs_minus) obs_far.
Proof.
  intros H. apply (f_equal (fun v : voxel => Qc_eqb (distance v) tau_example)) in H.
  vm_compute in H. discriminate.
Qed.

(** Float addition is commutative, bit for bit. *)
Lemma SFadd_comm (prec emax : Z) (x y : spec_float) :
  SFadd prec emax x y = SFadd prec emax y x.
Proof.
  destruct x as [sx | sx | | sx mx ex], y as [sy | sy | | sy my ey];
    try reflexivity; simpl.
  - destruct sx, sy; reflexivity.
  - destruct sx, sy; reflexivity.
  - rewrite (Z.min_comm ey ex), (Z.add_comm (cond_Zopp sy _)). reflexivity.
Qed.

Lemma updateTsdfVoxel_symmetric_float (prec emax : Z) (tau : spec_float)
    (a b : @TsdfVoxel (IEEEArith prec emax)) :
  @updateTsdfVoxel (IEEEArith prec emax) tau a b
  = @updateTsdfVoxel (IEEEArith prec emax) tau b a.
Proof.
  unfold updateTsdfVoxel. cbn.
  rewrite (SFadd_comm prec emax (weight b) (weight a)).
  rewrite (SFadd_comm prec emax (SFmul prec emax (distance b) (weight b))).
  reflexivity.
Qed.

(** From the default voxel the weight after two observations is the same
    in either order, in float arithmetic too. *)
Lemma updateTsdfVoxel_weight_float (prec emax : Z) (tau : spec_float)
    (a b : @TsdfVoxel (IEEEArith prec emax)) :
  weight (@updateTsdfVoxel (IEEEArith prec emax) tau
            (@updateTsdfVoxel (IEEEArith prec emax) tau TsdfVoxel_default a) b)
  = weight (@updateTsdfVoxel (IEEEArith prec emax) tau
              (@updateTsdfVoxel (IEEEArith prec emax) tau TsdfVoxel_default b)
              a).
Proof.
  unfold updateTsdfVoxel, TsdfVoxel_default. cbn [weight fp_add fp_zero IEEEArith].
  destruct (weight a) as [sa | sa | | sa ma ea],
           (weight b) as [sb | sb | | sb mb eb];
    try reflexivity; try (destruct sa; reflexivity);
    try (destruct sb; reflexivity); try (destruct sa, sb; reflexivity).
  apply SFadd_comm.
Qed.



End ExactMerge.


(* ===================================================================== *)
(** ** The persistence codec *)
(* ===================================================================== *)

Section PersistenceFacts.
Context {FPA : FloatingPointArith} {VoxelType : Type}.
Variable voxel_type : LayerType.
Variable merge_voxel : VoxelType -> VoxelType -> VoxelType.

Abbreviation WorldP := (@World FPA VoxelType).
Abbreviation BlockProtoP := (@BlockProto VoxelType).

Lemma store_block_at_map (i : BlockIndex) (b : @Block FPA VoxelType) (w : WorldP) :
  block_map_ (layer (store_block_at i b w))
  = <[i := fresh (dom (free_store w))]> (block_map_ (layer w)).
Proof. reflexivity. Qed.

Lemma store_block_at_live (i : BlockIndex) (b : @Block FPA VoxelType) (w : WorldP) :
  handles_live w -> handles_live (store_block_at i b w).
Proof.
  intros Hl j q. unfold store_block_at; simpl.
  destruct (decide (j = i)) as [-> | Hne].
  - rewrite lookup_insert_eq. intros [= <-]. rewrite lookup_insert_eq. eauto.
  - rewrite lookup_insert_ne by done. intros Hq.
    destruct (Hl j q Hq) as [b' Hb'].
    destruct (decide (q = fresh (dom (free_store w)))) as [-> | Hqp].
    + rewrite lookup_insert_eq. eauto.
    + rewrite lookup_insert_ne by done. eauto.
Qed.

Lemma store_block_at_voxels (i j : BlockIndex) (b : @Block FPA VoxelType)
    (w : WorldP) :
  handles_live w ->
  voxels_at (store_block_at i b w) j
  = if decide (j = i) then Some (b_voxels b) else voxels_at w j.
Proof.
  intros Hl. unfold voxels_at, store_block_at; simpl.
  destruct (decide (j = i)) as [-> | Hne].
  - rewrite lookup_insert_eq. simpl. by rewrite lookup_insert_eq.
  - rewrite lookup_insert_ne by done.
    destruct (block_map_ (layer w) !! j) as [q |] eqn:Hq; simpl; [| done].
    destruct (Hl j q Hq) as [b' Hb'].
    rewrite lookup_insert_ne; [done |].
    intros <-. rewrite fresh_ptr_unused in Hb'. done.
Qed.

(** Under Prohibit a record whose index is taken refuses the load, also
    when it comes after records that were accepted into the scratch copy. *)
Lemma load_blocks_Prohibit_collision (rs : list BlockProtoP) :
  forall scratch : WorldP,
  (exists r, r ∈ rs /\ is_Some (block_map_ (layer scratch) !! bp_index r)) ->
  load_blocks merge_voxel kProhibit rs scratch = None.
Proof.
  induction rs as [| r0 rs IH]; intros scratch (r & Hin & Hpre).
  - by apply elem_of_nil in Hin.
  - simpl. unfold load_block.
    destruct (block_map_ (layer scratch) !! bp_index r0) as [q |] eqn:E0;
      [reflexivity |].
    apply IH. exists r. apply elem_of_cons in Hin as [-> | Hin].
    + rewrite E0 in Hpre. by destruct Hpre.
    + split; [done |]. rewrite store_block_at_map.
      destruct (decide (bp_index r = bp_index r0)) as [-> | Hne].
      * rewrite lookup_insert_eq. eauto.
      * by rewrite lookup_insert_ne.
Qed.

(** Under Replace every record is stored: the load succeeds, the indices
    of the records join the block set, each of them holds its record's
    voxels, and all other indices are as before. *)
Lemma load_blocks_Replace (rs : list BlockProtoP) :
  forall scratch : WorldP,
  handles_live scratch ->
  NoDup (bp_index <$> rs) ->
  exists w' : WorldP,
    load_blocks merge_voxel kReplace rs scratch = Some w'
    /\ handles_live w'
    /\ geometry (layer w') = geometry (layer scratch)
    /\ dom (block_map_ (layer w'))
       = list_to_set (bp_index <$> rs) ∪ dom (block_map_ (layer scratch))
    /\ (forall r, r ∈ rs -> voxels_at w' (bp_index r) = Some (bp_voxels r))
    /\ (forall i, i ∉ bp_index <$> rs -> voxels_at w' i = voxels_at scratch i).
Proof.
  induction rs as [| r0 rs IH]; intros scratch Hl Hnd.
  - exists scratch. cbn [load_blocks]. repeat split; try done.
    + rewrite fmap_nil, list_to_set_nil. by rewrite (left_id_L ∅ (∪)).
    + intros r Hin. by apply elem_of_nil in Hin.
  - rewrite fmap_cons in Hnd. apply NoDup_cons in Hnd as [Hr0 Hnd].
    set (s1 := store_block_at (bp_index r0) (decode_block (layer scratch) r0)
                 scratch).
    assert (Hstep : load_block merge_voxel kReplace r0 scratch = Some s1).
    { unfold load_block. by destruct (block_map_ (layer scratch) !! bp_index r0). }
    destruct (IH s1 (store_block_at_live _ _ _ Hl) Hnd)
      as (w' & Hload & Hl' & Hgeo & Hdom & Hin & Hout).
    exists w'. cbn [load_blocks]. rewrite Hstep.
    split; [done |]. split; [done |]. split; [by rewrite Hgeo |].
    split.
    { rewrite Hdom. unfold s1. rewrite store_block_at_map, dom_insert_L.
      rewrite fmap_cons, list_to_set_cons.
      apply set_eq. intros x. rewrite !elem_of_union. tauto. }
    split.
    + intros r Hr. apply elem_of_cons in Hr as [-> | Hr]; [| by apply Hin].
      rewrite (Hout _ Hr0). unfold s1.
      rewrite store_block_at_voxels by done. by rewrite decide_True.
    + intros i Hi. rewrite fmap_cons in Hi.
      apply not_elem_of_cons in Hi as [Hne Hi].
      rewrite (Hout _ Hi). unfold s1.
      rewrite store_block_at_voxels by done. by rewrite decide_False.
Qed.

(** The records of an encoding are the live entries of the block map. *)
Lemma getProto_records (w : WorldP) (r : BlockProtoP) :
  r ∈ lp_blocks (getProto voxel_type w) <->
  exists p b, block_map_ (layer w) !! bp_index r = Some p
              /\ free_store w !! p = Some b
              /\ bp_voxels r = b_voxels b.
Proof.
  unfold getProto; simpl. rewrite list_elem_of_omap. split.
  - intros ([i p] & Hin & Henc). apply elem_of_map_to_list in Hin.
    unfold encode_entry in Henc; simpl in Henc.
    destruct (free_store w !! p) as [b |] eqn:Hb; simpl in Henc; [| done].
    injection Henc as <-. simpl. eauto.
  - intros (p & b & Hp & Hb & Hv). exists (bp_index r, p).
    split; [by apply elem_of_map_to_list |].
    unfold encode_entry; simpl. rewrite Hb; simpl.
    destruct r as [ri rv]; simpl in *. by rewrite Hv.
Qed.

Lemma encode_entries_index (store : gmap BlockPtr (@Block FPA VoxelType))
    (l : list (BlockIndex * BlockPtr)) (i : BlockIndex) :
  i ∈ bp_index <$> omap (encode_entry store) l -> i ∈ l.*1.
Proof.
  intros Hi. apply list_elem_of_fmap in Hi as (r & -> & Hr).
  apply list_elem_of_omap in Hr as ([k p] & Hin & Henc).
  unfold encode_entry in Henc; simpl in Henc.
  destruct (store !! p); simpl in Henc; [| done]. injection Henc as <-. simpl.
  apply list_elem_of_fmap. by exists (k, p).
Qed.

Lemma encode_entries_NoDup (store : gmap BlockPtr (@Block FPA VoxelType))
    (l : list (BlockIndex * BlockPtr)) :
  NoDup l.*1 -> NoDup (bp_index <$> omap (encode_entry store) l).
Proof.
  induction l as [| [k p] l IH]; simpl; intros Hnd; [constructor |].
  apply NoDup_cons in Hnd as [Hk Hnd].
  unfold encode_entry at 1; simpl.
  destruct (store !! p) as [b |]; simpl; [| by apply IH].
  apply NoDup_cons. split; [| by apply IH].
  intros Hin. by apply encode_entries_index in Hin.
Qed.

Lemma getProto_NoDup (w : WorldP) :
  NoDup (bp_index <$> lp_blocks (getProto voxel_type w)).
Proof. apply encode_entries_NoDup, NoDup_fst_map_to_list. Qed.

(** C7. A layer whose handles are live is encoded and the encoding is
    loaded under Replace into an empty layer of compatible geometry: the
    load succeeds, the target keeps its geometry, and it holds the same
    set of block indices, as many blocks, and at every index the same
    voxel contents as the source.  The same holds through a file. *)
Theorem persistence_round_trip (w t : WorldP) (file_path : string)
    (fs : gmap string (@LayerProto FPA VoxelType)) :
  handles_live w ->
  block_map_ (layer t) = ∅ ->
  isCompatible voxel_type (layer t) (getProto voxel_type w) = true ->
  exists t' : WorldP,
    loadBlocksFromProto voxel_type merge_voxel kReplace
      (getProto voxel_type w) t = (true, t')
    /\ loadBlocksFromFile voxel_type merge_voxel file_path kReplace
         (saveToFile voxel_type file_path w fs).2 t = (true, t')
    /\ geometry (layer t') = geometry (layer t)
    /\ dom (block_map_ (layer t')) = dom (block_map_ (layer w))
    /\ getNumberOfAllocatedBlocks (layer t')
       = getNumberOfAllocatedBlocks (layer w)
    /\ lp_block_count (getProto voxel_type w)
       = N.of_nat (getNumberOfAllocatedBlocks (layer w))
    /\ (forall i, voxels_at t' i = voxels_at w i).
Proof.
  intros Hlive Hempty Hcompat.
  assert (Ht : handles_live t).
  { intros i p. rewrite Hempty, lookup_empty. done. }
  destruct (load_blocks_Replace (lp_blocks (getProto voxel_type w)) t Ht
              (getProto_NoDup w))
    as (t' & Hload & _ & Hgeo & Hdom & Hin & Hout).
  assert (Hidx : forall i, i ∈ bp_index <$> lp_blocks (getProto voxel_type w)
                           <-> i ∈ dom (block_map_ (layer w))).
  { intros i. rewrite elem_of_dom. split.
    - intros Hi. apply list_elem_of_fmap in Hi as (r & -> & Hr).
      apply getProto_records in Hr as (p & b & Hp & _). eauto.
    - intros [p Hp]. destruct (Hlive i p Hp) as [b Hb].
      apply list_elem_of_fmap.
      exists {| bp_index := i; bp_voxels := b_voxels b |}. split; [done |].
      apply getProto_records. simpl. eauto. }
  assert (Hdom' : dom (block_map_ (layer t')) = dom (block_map_ (layer w))).
  { rewrite Hdom, Hempty, dom_empty_L. apply set_eq. intros i.
    rewrite elem_of_union, elem_of_list_to_set, Hidx.
    split; [intros [H | H]; [done | by apply elem_of_empty in H] | by left]. }
  assert (Hproto : loadBlocksFromProto voxel_type merge_voxel kReplace
                     (getProto voxel_type w) t = (true, t')).
  { unfold loadBlocksFromProto. by rewrite Hcompat, Hload. }
  exists t'. split; [done |].
  split.
  { unfold loadBlocksFromFile, saveToFile. cbn [snd].
    by rewrite lookup_insert_eq. }
  split; [done |]. split; [done |].
  split.
  { unfold getNumberOfAllocatedBlocks. by rewrite <- !size_dom, Hdom'. }
  split.
  { unfold getNumberOfAllocatedBlocks. rewrite <- size_dom.
    assert (Hlen : length (lp_blocks (getProto voxel_type w))
                   = size (dom (block_map_ (layer w)))).
    { rewrite <- (length_fmap bp_index).
      rewrite <- (size_list_to_set (C := gset BlockIndex) _ (getProto_NoDup w)).
      f_equal. apply set_eq. intros i. rewrite elem_of_list_to_set. apply Hidx. }
    unfold getProto at 1. cbn [lp_block_count]. f_equal. exact Hlen. }
  intros i.
  destruct (block_map_ (layer w) !! i) as [p |] eqn:Hp.
  - destruct (Hlive i p Hp) as [b Hb].
    assert (Hr : {| bp_index := i; bp_voxels := b_voxels b |}
                 ∈ lp_blocks (getProto voxel_type w)).
    { apply getProto_records. simpl. eauto. }
    pose proof (Hin _ Hr) as Hv. cbn [bp_index bp_voxels] in Hv. rewrite Hv.
    unfold voxels_at. rewrite Hp; simpl. by rewrite Hb.
  - rewrite Hout.
    + unfold voxels_at. by rewrite Hempty, lookup_empty, Hp.
    + rewrite Hidx, elem_of_dom, Hp. by intros [? ?].
Qed.

(** C8. Under Prohibit, when some record of the encoding has an index at
    which the target already holds a block, the load reports failure and
    the target is exactly as before: its block map, its blocks and its
    log.  The same holds when the encoding is read from a file. *)
Theorem loadBlocks_Prohibit_atomic (proto : @LayerProto FPA VoxelType)
    (w : WorldP) (file_path : string)
    (fs : gmap string (@LayerProto FPA VoxelType)) :
  (exists r, r ∈ lp_blocks proto
             /\ is_Some (block_map_ (layer w) !! bp_index r)) ->
  loadBlocksFromProto voxel_type merge_voxel kProhibit proto w = (false, w)
  /\ (fs !! file_path = Some proto ->
      loadBlocksFromFile voxel_type merge_voxel file_path kProhibit fs w
      = (false, w)).
Proof.
  intros Hcoll.
  assert (H : loadBlocksFromProto voxel_type merge_voxel kProhibit proto w
              = (false, w)).
  { unfold loadBlocksFromProto.
    destruct (isCompatible voxel_type (layer w) proto); [| reflexivity].
    by rewrite load_blocks_Prohibit_collision. }
  split; [exact H |].
  intros Hfile. unfold loadBlocksFromFile. by rewrite Hfile.
Qed.

End PersistenceFacts.

(* ===================================================================== *)
(** ** The statements at concrete layers *)
(* ===================================================================== *)

Lemma Layer_inv_empty {FPA : FloatingPointArith} {VoxelType : Type}
    (w : @World FPA VoxelType) :
  block_map_ (layer w) = ∅ -> Layer_inv w.
Proof.
  intros Hempty. split.
  - intros i. apply blocks_at_unique.
  - intros i p. by rewrite Hempty, lookup_empty.
  - intros i j p. by rewrite Hempty, lookup_empty.
  - intros i p b. by rewrite Hempty, lookup_empty.
Qed.

Lemma world_A_live : handles_live world_A.
Proof.
  intros i p Hp.
  change (({[ (2, 0, 0) := 1%positive ]} : gmap BlockIndex BlockPtr) !! i
          = Some p) in Hp.
  apply lookup_singleton_Some in Hp as [_ <-].
  eexists. apply lookup_singleton_eq.
Qed.

(** Allocating (2,0,0) twice in the empty layer: one block, same handle. *)
Lemma allocateBlockPtrByIndex_idempotent_witness :
  exists p w1,
    allocateBlockPtrByIndex TsdfVoxel_default true (2, 0, 0) world_empty
      = Returns p w1
    /\ getNumberOfAllocatedBlocks (layer w1) = 1%nat
    /\ allocateBlockPtrByIndex TsdfVoxel_default true (2, 0, 0) w1
       = Returns p w1.
Proof.
  destruct (allocateBlockPtrByIndex_idempotent TsdfVoxel_default true
              (2, 0, 0) world_empty (lookup_empty _))
    as (p & w1 & H1 & _ & _ & _ & Hn & H2 & _).
  exists p, w1. split; [exact H1 |]. split; [exact Hn | exact H2].
Defined.

(** The empty layer satisfies the invariant and keeps it. *)
Lemma Layer_one_block_per_index_witness :
  Layer_inv world_empty
  /\ exists p w',
       allocateBlockPtrByIndex TsdfVoxel_default true (2, 0, 0) world_empty
         = Returns p w'
       /\ Layer_inv w'.
Proof.
  pose proof (Layer_inv_empty world_empty eq_refl) as Hinv.
  split; [exact Hinv |].
  destruct (Layer_one_block_per_index TsdfVoxel_default true (2, 0, 0)
              world_empty Hinv) as (_ & (p & w' & Ha & Hi & _) & _).
  exists p, w'. split; [exact Ha | exact Hi].
Defined.

(** A present block is returned, an absent one ends the program. *)
Lemma getBlockByIndex_fail_fast_witness :
  getBlockByIndex (2, 0, 0) world_one_block = Returns 1%positive world_one_block
  /\ getBlockByIndex (0, 0, 0) world_one_block
     = Aborts "Accessed unallocated block at " (0, 0, 0).
Proof.
  split.
  - apply (proj2 (getBlockByIndex_fail_fast (2, 0, 0) world_one_block)).
    reflexivity.
  - apply (proj1 (getBlockByIndex_fail_fast (0, 0, 0) world_one_block)).
    reflexivity.
Defined.

(** Two points of block (2,0,0) are interchangeable. *)
Lemma ByCoordinates_is_ByIndex_witness :
  computeBlockIndexFromCoordinates (layer world_one_block) point_a = (2, 0, 0)
  /\ computeBlockIndexFromCoordinates (layer world_one_block) point_b = (2, 0, 0)
  /\ getBlockPtrByCoordinates point_a world_one_block
     = getBlockPtrByCoordinates point_b world_one_block.
Proof.
  split; [vm_compute; reflexivity |]. split; [vm_compute; reflexivity |].
  apply (proj2 (proj2 (proj2 (proj2
    (ByCoordinates_is_ByIndex TsdfVoxel_default true point_b world_one_block))))).
  vm_compute. reflexivity.
Defined.

(** Layer A is saved and loaded into the empty layer. *)
Lemma persistence_round_trip_witness :
  exists t',
    loadBlocksFromProto kTsdf merge_example kReplace
      (getProto kTsdf world_A) world_empty = (true, t')
    /\ getNumberOfAllocatedBlocks (layer t') = 1%nat
    /\ voxels_at t' (2, 0, 0) = Some (replicate 8 obs_plus).
Proof.
  assert (Hc : isCompatible kTsdf (layer world_empty) (getProto kTsdf world_A)
               = true) by (vm_compute; reflexivity).
  destruct (persistence_round_trip kTsdf merge_example
              world_A world_empty "layer.vxblx" ∅ world_A_live eq_refl Hc)
    as (t' & Hload & _ & _ & _ & Hn & _ & Hv).
  exists t'. split; [exact Hload |]. split.
  - rewrite Hn. reflexivity.
  - rewrite Hv. reflexivity.
Defined.

(** The conflict scenario of the specification under Prohibit. *)
Lemma loadBlocks_Prohibit_atomic_witness :
  loadBlocksFromProto kTsdf merge_example kProhibit
    proto_B world_A = (false, world_A).
Proof.
  apply (proj1 (loadBlocks_Prohibit_atomic kTsdf merge_example
                  proto_B world_A "layer.vxblx" ∅
                  (ex_intro _ _ (conj (list_elem_of_here _ _)
                                      (ex_intro _ _ (lookup_singleton_eq _ _)))))).
Defined.

(** The conflict scenario under the other three policies: Replace leaves
    (-0.1, 1), Discard keeps (0.1, 1), Merge gives (0, 2). *)
Lemma load_conflict_scenario :
  let load strategy :=
    loadBlocksFromProto kTsdf merge_example strategy
      proto_B world_A in
  voxel_values (voxels_at (load kReplace).2 (2, 0, 0))
    = Some (replicate 8 ((-1 # 10)%Q, 1%Q))
  /\ voxel_values (voxels_at (load kDiscard).2 (2, 0, 0))
     = Some (replicate 8 ((1 # 10)%Q, 1%Q))
  /\ voxel_values (voxels_at (load kMerge).2 (2, 0, 0))
     = Some (replicate 8 (0%Q, 2%Q))
  /\ (load kReplace).1 = true /\ (load kDiscard).1 = true
  /\ (load kMerge).1 = true.
Proof.
  cbv zeta. do 5 (split; [vm_compute; reflexivity |]). vm_compute. reflexivity.
Qed.

(** Removing the only block of a layer, and removing at a free index. *)
Lemma removeBlock_frame_witness :
  (exists w', removeBlock (2, 0, 0) world_one_block = Returns tt w'
              /\ S (getNumberOfAllocatedBlocks (layer w')) = 1%nat
              /\ block_map_ (layer w') !! (2, 0, 0) = None)
  /\ removeBlock (0, 0, 0) world_one_block = Returns tt world_one_block.
Proof.
  split.
  - destruct (removeBlock_frame (2, 0, 0) world_one_block)
      as (w' & Hr & Hgone & Hn & _).
    exists w'. split; [exact Hr |]. split; [| exact Hgone].
    rewrite Hn; [reflexivity |]. eexists. reflexivity.
  - destruct (removeBlock_frame (0, 0, 0) world_one_block)
      as (w' & Hr & _ & _ & Hsame & _).
    rewrite Hr. f_equal. apply Hsame. reflexivity.
Defined.

(* ===================================================================== *)
(** ** Further properties of the layer *)
(* ===================================================================== *)

Section LayerExtras.
Context {FPA : FloatingPointArith} {VoxelType : Type}.
Variable default_voxel : VoxelType.
Variable dcheck_enabled : bool.

Abbreviation WorldX := (@World FPA VoxelType).
Abbreviation allocX :=
  (@allocateBlockPtrByIndex FPA VoxelType default_voxel dcheck_enabled).
Abbreviation allocNewX :=
  (@allocateNewBlock FPA VoxelType default_voxel dcheck_enabled).
Abbreviation run_callsX :=
  (@run_calls FPA VoxelType default_voxel dcheck_enabled).
Abbreviation do_callX :=
  (@do_call FPA VoxelType default_voxel dcheck_enabled).

(** X1. [getAllAllocatedBlocks] lists every allocated block index once
    and nothing else: an index is listed exactly when [getBlockByIndex]
    returns for it, no index is listed twice, and the list is as long as
    [getNumberOfAllocatedBlocks] says. *)
Theorem getAllAllocatedBlocks_enumerates (w : WorldX) :
  NoDup (getAllAllocatedBlocks (layer w))
  /\ length (getAllAllocatedBlocks (layer w))
     = getNumberOfAllocatedBlocks (layer w)
  /\ (forall i, i ∈ getAllAllocatedBlocks (layer w)
                <-> exists p, getBlockByIndex i w = Returns p w)
  /\ (forall i, i ∉ getAllAllocatedBlocks (layer w)
                <-> getBlockByIndex i w
                    = Aborts "Accessed unallocated block at " i).
Proof.
  assert (Hin : forall i, i ∈ getAllAllocatedBlocks (layer w)
                          <-> is_Some (block_map_ (layer w) !! i)).
  { intros i. unfold getAllAllocatedBlocks. rewrite list_elem_of_fmap. split.
    - intros ([k p] & -> & Hkp). apply elem_of_map_to_list in Hkp. eauto.
    - intros [p Hp]. exists (i, p). split; [done |].
      by apply elem_of_map_to_list. }
  split; [apply NoDup_fst_map_to_list |].
  split.
  { unfold getAllAllocatedBlocks, getNumberOfAllocatedBlocks.
    by rewrite length_fmap, length_map_to_list. }
  split; intros i; rewrite Hin, getBlockByIndex_eq;
    destruct (block_map_ (layer w) !! i) as [p |]; split.
  - intros _. by exists p.
  - eauto.
  - intros [q Hq]. done.
  - intros [q Hq]. done.
  - intros Hn. exfalso. apply Hn. eauto.
  - done.
  - done.
  - intros _ [q Hq]. done.
Qed.

(** The lookup-or-insert always returns, stores its result under the
    index and leaves the other entries alone. *)
Lemma allocateBlockPtrByIndex_step (i : BlockIndex) (w : WorldX) :
  exists (p : BlockPtr) (w1 : WorldX),
    allocX i w = Returns p w1
    /\ block_map_ (layer w1) !! i = Some p
    /\ (forall j, j <> i ->
          block_map_ (layer w1) !! j = block_map_ (layer w) !! j).
Proof.
  rewrite allocateBlockPtrByIndex_eq.
  destruct (block_map_ (layer w) !! i) as [p |] eqn:E.
  - by exists p, w.
  - eexists _, _. split; [reflexivity |].
    unfold with_new_block; simpl. split; [apply lookup_insert_eq |].
    intros j Hne. by rewrite lookup_insert_ne.
Qed.

(** X2. Whatever the state, [allocateBlockPtrByIndex(i)] returns a handle
    that both lookups then return for [i] (no warning, no abort) and
    that points to a live block; the entries at all other indices and
    every block already in the free store are as before. *)
Theorem allocate_then_lookup (i : BlockIndex) (w : WorldX) :
  exists (p : BlockPtr) (w1 : WorldX),
    allocX i w = Returns p w1
    /\ getBlockPtrByIndex i w1 = Returns (Some p) w1
    /\ getBlockByIndex i w1 = Returns p w1
    /\ i ∈ getAllAllocatedBlocks (layer w1)
    /\ (handles_live w -> is_Some (free_store w1 !! p))
    /\ (forall j, j <> i ->
          block_map_ (layer w1) !! j = block_map_ (layer w) !! j)
    /\ (forall q b, free_store w !! q = Some b -> free_store w1 !! q = Some b)
    /\ glog w1 = glog w.
Proof.
  rewrite allocateBlockPtrByIndex_eq.
  destruct (block_map_ (layer w) !! i) as [p |] eqn:E.
  - exists p, w. rewrite getBlockPtrByIndex_eq, getBlockByIndex_eq, E.
    repeat split; try done.
    + unfold getAllAllocatedBlocks. apply list_elem_of_fmap.
      exists (i, p). split; [done |]. by apply elem_of_map_to_list.
    + intros Hl. by apply (Hl i).
  - exists (fresh (dom (free_store w))), (with_new_block default_voxel i w).
    rewrite getBlockPtrByIndex_eq, getBlockByIndex_eq.
    unfold with_new_block; simpl. rewrite lookup_insert_eq.
    repeat split; try done.
    + unfold getAllAllocatedBlocks. apply list_elem_of_fmap.
      exists (i, fresh (dom (free_store w))). split; [done |].
      apply elem_of_map_to_list. simpl. apply lookup_insert_eq.
    + intros _. rewrite lookup_insert_eq. eauto.
    + intros j Hne. by rewrite lookup_insert_ne.
    + intros q b Hq. rewrite lookup_insert_ne; [done |].
      intros <-. by rewrite fresh_ptr_unused in Hq.
Qed.

(** X3. After [removeBlock(i)] the lookup by handle returns the null
    handle with a warning, the asserting lookup ends the program, the
    index is no longer enumerated, and a second [removeBlock(i)] changes
    nothing. *)
Theorem remove_then_lookup (i : BlockIndex) (w : WorldX) :
  exists w1 : WorldX,
    removeBlock i w = Returns tt w1
    /\ (exists w2, getBlockPtrByIndex i w1 = Returns None w2
                   /\ layer w2 = layer w1
                   /\ glog w2
                      = (glog w1
                         ++ [(WARNING, "Returning null ptr to block!"%string)]))
    /\ getBlockByIndex i w1 = Aborts "Accessed unallocated block at " i
    /\ (i ∉ getAllAllocatedBlocks (layer w1))
    /\ removeBlock i w1 = Returns tt w1.
Proof.
  exists (without_block i w). split; [apply removeBlock_eq |].
  assert (Hgone : block_map_ (layer (without_block i w)) !! i = None)
    by apply lookup_delete_eq.
  split.
  { rewrite getBlockPtrByIndex_eq, Hgone. eexists. by repeat split. }
  split; [by rewrite getBlockByIndex_eq, Hgone |].
  split.
  { unfold getAllAllocatedBlocks. rewrite list_elem_of_fmap.
    intros ([k p] & Hk & Hkp). simpl in Hk. subst k.
    apply elem_of_map_to_list in Hkp.
    change (block_map_ (layer (without_block i w)) !! i = Some p) in Hkp.
    rewrite Hgone in Hkp. done. }
  rewrite removeBlock_eq. f_equal. unfold without_block; simpl.
  by rewrite delete_delete_eq.
Qed.

(** X4. On a layer with no block at [i], allocating [i] and then removing
    it gives back the layer as it was (block map, block count and
    geometry); the handle the caller received was not in use before, and
    the log is as before. *)
Theorem allocate_then_remove (i : BlockIndex) (w : WorldX) :
  block_map_ (layer w) !! i = None ->
  exists (p : BlockPtr) (w1 w2 : WorldX),
    allocX i w = Returns p w1
    /\ removeBlock i w1 = Returns tt w2
    /\ block_map_ (layer w1) !! i = Some p
    /\ layer w2 = layer w
    /\ getNumberOfAllocatedBlocks (layer w2)
       = getNumberOfAllocatedBlocks (layer w)
    /\ free_store w !! p = None
    /\ glog w2 = glog w.
Proof.
  intros Habs. rewrite allocateBlockPtrByIndex_eq, Habs.
  eexists _, _, _. split; [reflexivity |].
  split; [apply removeBlock_eq |].
  unfold without_block, with_new_block; simpl.
  split; [apply lookup_insert_eq |].
  assert (Hlayer : {| voxel_size_ := voxel_size_ (layer w);
                      voxels_per_side_ := voxels_per_side_ (layer w);
                      block_size_ := block_size_ (layer w);
                      block_size_inv_ := block_size_inv_ (layer w);
                      block_map_ :=
                        delete i (<[i := fresh (dom (free_store w))]>
                                    (block_map_ (layer w))) |} = layer w).
  { rewrite delete_insert_eq, delete_id by done. by destruct (layer w). }
  rewrite Hlayer. repeat split. apply fresh_ptr_unused.
Qed.

(** X5. With [DCHECK] compiled out, [allocateNewBlock] is the
    lookup-or-insert [allocateBlockPtrByIndex]: same result and same final
    state for every index and state.  With [DCHECK] compiled in, the two
    agree exactly on the indices that hold no block. *)
Theorem allocateNewBlock_vs_allocateBlockPtrByIndex (i : BlockIndex)
    (w : WorldX) :
  @allocateNewBlock FPA VoxelType default_voxel false i w
  = @allocateBlockPtrByIndex FPA VoxelType default_voxel false i w
  /\ (@allocateNewBlock FPA VoxelType default_voxel true i w
      = @allocateBlockPtrByIndex FPA VoxelType default_voxel true i w
      <-> block_map_ (layer w) !! i = None).
Proof.
  rewrite !allocateBlockPtrByIndex_eq.
  destruct (block_map_ (layer w) !! i) as [q |] eqn:E.
  - rewrite !(allocateNewBlock_present _ _ i q w E). split; [done |].
    split; done.
  - rewrite !(allocateNewBlock_absent _ _ i w E). split; [done |].
    split; done.
Qed.

(** What one call can do to the state: nothing, add a warning, insert a
    new block at a free index, or erase the entry of its index. *)
Lemma do_call_cases (c : @LayerCall FPA) (w w' : WorldX) :
  do_callX c w = Returns tt w' ->
  w' = w
  \/ w' = {| layer := layer w; free_store := free_store w;
             glog := glog w ++ [(WARNING, "Returning null ptr to block!"%string)] |}
  \/ (block_map_ (layer w) !! call_index (layer w) c = None
      /\ w' = with_new_block default_voxel (call_index (layer w) c) w)
  \/ w' = without_block (call_index (layer w) c) w.
Proof.
  assert (Hget : forall i, discard (getBlockPtrByIndex i) w = Returns tt w' ->
            w' = w
            \/ w' = {| layer := layer w; free_store := free_store w;
                       glog := glog w
                         ++ [(WARNING, "Returning null ptr to block!"%string)] |}).
  { intros i. unfold discard, bind. rewrite getBlockPtrByIndex_eq.
    destruct (block_map_ (layer w) !! i); intros [= <-]; auto. }
  assert (Halloc : forall i, discard (allocX i) w = Returns tt w' ->
            w' = w \/ (block_map_ (layer w) !! i = None
                       /\ w' = with_new_block default_voxel i w)).
  { intros i. unfold discard, bind. rewrite allocateBlockPtrByIndex_eq.
    destruct (block_map_ (layer w) !! i); intros [= <-]; auto. }
  assert (Hnew : forall i, discard (allocNewX i) w = Returns tt w' ->
            w' = w \/ (block_map_ (layer w) !! i = None
                       /\ w' = with_new_block default_voxel i w)).
  { intros i. unfold discard, bind.
    destruct (block_map_ (layer w) !! i) as [q |] eqn:E.
    - rewrite (allocateNewBlock_present _ _ i q w E).
      destruct dcheck_enabled; [done |]. intros [= <-]; auto.
    - rewrite (allocateNewBlock_absent _ _ i w E). intros [= <-]; auto. }
  destruct c as [i | i | i | i | i | p | p | p | p]; simpl; intros Hc.
  - unfold discard, bind in Hc. rewrite getBlockByIndex_eq in Hc.
    destruct (block_map_ (layer w) !! i); [| done].
    injection Hc as <-. auto.
  - destruct (Hget i Hc); auto.
  - destruct (Halloc i Hc); auto.
  - destruct (Hnew i Hc); auto.
  - rewrite removeBlock_eq in Hc. injection Hc as <-. auto.
  - destruct (Hget (computeBlockIndexFromCoordinates (layer w) p) Hc); auto.
  - destruct (Halloc (computeBlockIndexFromCoordinates (layer w) p) Hc); auto.
  - destruct (Hnew (computeBlockIndexFromCoordinates (layer w) p) Hc); auto.
  - change (removeBlock (computeBlockIndexFromCoordinates (layer w) p) w
            = Returns tt w') in Hc.
    rewrite removeBlock_eq in Hc. injection Hc as <-. auto.
Qed.

(** X6. Any sequence of calls that runs to its end keeps the
    representation invariant, leaves voxel size, voxels per side, block
    size and its reciprocal as they were, and adds to the log nothing
    but null-handle warnings. *)
Theorem run_calls_invariant (cs : list (@LayerCall FPA)) :
  forall w w' : WorldX,
  Layer_inv w ->
  run_callsX cs w = Returns tt w' ->
  Layer_inv w'
  /\ geometry (layer w') = geometry (layer w)
  /\ (exists n : nat,
        (n <= length cs)%nat
        /\ glog w'
           = glog w
             ++ replicate n (WARNING, "Returning null ptr to block!"%string)).
Proof.
  induction cs as [| c cs IH]; intros w w' Hinv Hrun.
  - injection Hrun as <-. do 2 (split; [done |]).
    exists 0%nat. split; [done |]. by rewrite app_nil_r.
  - simpl in Hrun. unfold bind in Hrun at 1.
    destruct (do_callX c w) as [[] w1 | msg j] eqn:Hc; [| done].
    assert (Hstep : Layer_inv w1
              /\ geometry (layer w1) = geometry (layer w)
              /\ (exists n : nat,
                    (n <= 1)%nat
                    /\ glog w1
                       = glog w
                         ++ replicate n
                              (WARNING, "Returning null ptr to block!"%string))).
    { destruct (do_call_cases c w w1 Hc) as [-> | [-> | [[Habs ->] | ->]]].
      - do 2 (split; [done |]). exists 0%nat. split; [lia |].
        by rewrite app_nil_r.
      - split; [by apply Layer_inv_log |]. split; [done |].
        exists 1%nat. split; [lia | done].
      - split; [by apply Layer_inv_with_new_block |]. split; [done |].
        exists 0%nat. split; [lia |]. by rewrite app_nil_r.
      - split; [by apply Layer_inv_without_block |]. split; [done |].
        exists 0%nat. split; [lia |]. by rewrite app_nil_r. }
    destruct Hstep as (Hinv1 & Hgeo1 & (n1 & Hn1 & Hlog1)).
    destruct (IH w1 w' Hinv1 Hrun) as (Hinv' & Hgeo' & (n2 & Hn2 & Hlog2)).
    split; [done |]. split; [by rewrite Hgeo' |].
    exists (n1 + n2)%nat. split; [simpl; lia |].
    by rewrite Hlog2, Hlog1, <- app_assoc, replicate_add.
Qed.

(** X7. A sequence of calls without [getBlockByIndex], and without
    [allocateNewBlock] unless [DCHECK] is compiled out, never ends the
    program: it returns. *)
Theorem run_calls_returns (cs : list (@LayerCall FPA)) :
  forall w : WorldX,
  Forall (fun c => cannot_abort dcheck_enabled c = true) cs ->
  exists w' : WorldX, run_callsX cs w = Returns tt w'.
Proof.
  induction cs as [| c cs IH]; intros w Hall.
  - by exists w.
  - apply Forall_cons in Hall as [Hc Hall].
    assert (Hstep : exists w1, do_callX c w = Returns tt w1).
    { assert (Hget : forall i, exists w1,
                discard (getBlockPtrByIndex i) w = Returns tt w1).
      { intros i. unfold discard, bind. rewrite getBlockPtrByIndex_eq.
        destruct (block_map_ (layer w) !! i); eauto. }
      assert (Halloc : forall i, exists w1, discard (allocX i) w = Returns tt w1).
      { intros i. unfold discard, bind. rewrite allocateBlockPtrByIndex_eq.
        destruct (block_map_ (layer w) !! i); eauto. }
      assert (Hnew : forall i, dcheck_enabled = false ->
                exists w1, discard (allocNewX i) w = Returns tt w1).
      { intros i Hd. unfold discard, bind.
        destruct (block_map_ (layer w) !! i) as [q |] eqn:E.
        - rewrite (allocateNewBlock_present _ _ i q w E), Hd. eauto.
        - rewrite (allocateNewBlock_absent _ _ i w E). eauto. }
      destruct c as [i | i | i | i | i | p | p | p | p]; simpl in Hc |- *;
        try done; eauto.
      - apply Hnew. by destruct dcheck_enabled.
      - exact (Hget (computeBlockIndexFromCoordinates (layer w) p)).
      - exact (Halloc (computeBlockIndexFromCoordinates (layer w) p)).
      - apply (Hnew (computeBlockIndexFromCoordinates (layer w) p)).
        by destruct dcheck_enabled. }
    destruct Hstep as [w1 Hw1]. destruct (IH w1 Hall) as [w' Hw'].
    exists w'. simpl. unfold bind at 1. by rewrite Hw1.
Qed.

(** X8. Allocating a list of block indices one after the other returns,
    and afterwards the allocated indices are the old ones together with
    those of the list (repetitions in the list add nothing); the blocks
    that were allocated before keep their handles. *)
Theorem allocate_all (l : list BlockIndex) :
  forall w : WorldX,
  exists w' : WorldX,
    run_callsX (Call_allocateBlockPtrByIndex <$> l) w = Returns tt w'
    /\ dom (block_map_ (layer w'))
       = list_to_set l ∪ dom (block_map_ (layer w))
    /\ (forall i p, block_map_ (layer w) !! i = Some p ->
                    block_map_ (layer w') !! i = Some p)
    /\ (block_map_ (layer w) = ∅ ->
        getNumberOfAllocatedBlocks (layer w') = length (remove_dups l)).
Proof.
  assert (Hmain : forall w : WorldX, exists w' : WorldX,
    run_callsX (Call_allocateBlockPtrByIndex <$> l) w = Returns tt w'
    /\ dom (block_map_ (layer w'))
       = list_to_set l ∪ dom (block_map_ (layer w))
    /\ (forall i p, block_map_ (layer w) !! i = Some p ->
                    block_map_ (layer w') !! i = Some p)).
  { induction l as [| i l IH]; intros w.
    - exists w. split; [done |]. split; [| done].
      apply set_eq. intros x. rewrite elem_of_union, elem_of_list_to_set.
      split; [by right | intros [H | H]; [by apply elem_of_nil in H | done]].
    - destruct (allocateBlockPtrByIndex_step i w)
        as (p & w1 & Ha & Hp1 & Hother).
      destruct (IH w1) as (w' & Hrun & Hdom & Hkeep).
      assert (Hold : forall j q, block_map_ (layer w) !! j = Some q ->
                                 block_map_ (layer w1) !! j = Some q).
      { intros j q Hj. destruct (decide (j = i)) as [-> | Hne].
        - rewrite allocateBlockPtrByIndex_eq, Hj in Ha. by injection Ha as <- <-.
        - by rewrite Hother. }
      exists w'. split.
      { rewrite fmap_cons. cbn [run_calls do_call]. unfold bind at 1, discard, bind.
        by rewrite Ha. }
      split; [| by eauto].
      rewrite Hdom. apply set_eq. intros x.
      rewrite !elem_of_union, !elem_of_list_to_set, elem_of_cons, !elem_of_dom.
      split.
      + intros [Hx | [q Hq]]; [tauto |].
        destruct (decide (x = i)) as [-> | Hne]; [tauto |].
        right. exists q. by rewrite <- Hother.
      + intros [[-> | Hx] | [q Hq]]; [right; eauto | tauto | right; eauto]. }
  intros w. destruct (Hmain w) as (w' & Hrun & Hdom & Hkeep).
  exists w'. split; [done |]. split; [done |]. split; [done |].
  intros Hempty. unfold getNumberOfAllocatedBlocks.
  rewrite <- size_dom, Hdom, Hempty, dom_empty_L, (right_id_L ∅ (∪)).
  assert (Hset : list_to_set l =@{gset BlockIndex} list_to_set (remove_dups l)).
  { apply set_eq. intros x.
    by rewrite !elem_of_list_to_set, elem_of_remove_dups. }
  rewrite Hset. apply size_list_to_set, NoDup_remove_dups.
Qed.

End LayerExtras.

(* ===================================================================== *)
(** ** Blocks as cubes of space, in exact arithmetic *)
(* ===================================================================== *)

(** Statements on [Qc] are moved to [Q], where [lra] works. *)
Ltac Qc_to_Q :=
  unfold Qc_of_Z, Qcle, Qclt, Qcdiv, Qcminus, Qcplus, Qcmult, Qcopp, Qcinv in *;
  cbn [this Q2Qc] in *;
  repeat (rewrite ?Qred_correct in * ).

Section ExactGeometry.
Local Open Scope Qc_scope.

Abbreviation LayerQ := (@Layer ExactArith).
Abbreviation PointQ := (@Point ExactArith).

Lemma Qc_floor_unique (x : Qc) (z : Z) :
  Qc_of_Z z <= x -> x < Qc_of_Z z + 1 -> Qc_floor x = z.
Proof.
  unfold Qc_floor. intros Hlo Hhi. Qc_to_Q.
  assert (z <= Qfloor x)%Z.
  { rewrite <- (Qfloor_Z z). apply Qfloor_resp_le. exact Hlo. }
  assert (Qfloor x < z + 1)%Z.
  { rewrite Zlt_Qlt. eapply Qle_lt_trans; [apply Qfloor_le |].
    rewrite inject_Z_plus. exact Hhi. }
  lia.
Qed.

Lemma Qc_floor_bounds (x : Qc) :
  Qc_of_Z (Qc_floor x) <= x /\ x < Qc_of_Z (Qc_floor x) + 1.
Proof.
  unfold Qc_floor. Qc_to_Q. split.
  - apply Qfloor_le.
  - pose proof (Qlt_floor x) as H. rewrite inject_Z_plus in H. exact H.
Qed.

Lemma Qc_floor_iff (x : Qc) (z : Z) :
  Qc_floor x = z <-> Qc_of_Z z <= x /\ x < Qc_of_Z z + 1.
Proof.
  split.
  - intros <-. apply Qc_floor_bounds.
  - intros [Hlo Hhi]. by apply Qc_floor_unique.
Qed.

(** The quotient by a positive block size lies between [z] and [z + 1]
    exactly when the coordinate lies between [z * b] and [(z + 1) * b]. *)
Lemma quotient_bounds (x b t : Qc) :
  0 < b ->
  (t <= x * (1 / b) <-> t * b <= x) /\ (x * (1 / b) < t <-> x < t * b).
Proof.
  intros Hb.
  assert (Hne : b <> 0) by (by apply not_eq_sym, Qclt_not_eq).
  assert (Hx : x * (1 / b) * b = x) by (field; done).
  split; split; intros H.
  - rewrite <- Hx. apply Qcmult_le_compat_r; [done | by apply Qclt_le_weak].
  - apply Qcmult_lt_0_le_reg_r with b; [done |]. by rewrite Hx.
  - rewrite <- Hx. by apply Qcmult_lt_compat_r.
  - apply Qcnot_le_lt. intros Hle.
    apply (Qcmult_le_compat_r _ _ b) in Hle; [| by apply Qclt_le_weak].
    rewrite Hx in Hle. by apply Qcle_not_lt in Hle.
Qed.

(** X9. In exact arithmetic the origin [allocateNewBlock] gives to the
    block it creates at [i] is mapped back to [i] by
    [computeBlockIndexFromCoordinates].  In [float] arithmetic it need
    not be: with voxel size 0.1 and 16 voxels per side the origin of
    block (-13, -13, -13) is mapped to block (-14, -14, -14). *)
Theorem block_origin_round_trip
    (w : @World ExactArith (@TsdfVoxel ExactArith)) (i : BlockIndex) :
  block_map_ (layer w) !! i = None ->
  block_size_ (layer w) <> 0 ->
  block_size_inv_ (layer w) = @fp_recip ExactArith (block_size_ (layer w)) ->
  (exists p w1 b,
     allocateNewBlock TsdfVoxel_default true i w = Returns p w1
     /\ free_store w1 !! p = Some b
     /\ b_origin b = block_origin (layer w) i
     /\ computeBlockIndexFromCoordinates (layer w1) (b_origin b) = i)
  /\ computeBlockIndexFromCoordinates layer_f32_block_1_6
       (block_origin layer_f32_block_1_6 (-13, -13, -13)%Z)
     = (-14, -14, -14)%Z.
Proof.
  intros Habs Hne Hinv. split; [| vm_compute; reflexivity].
  rewrite (allocateNewBlock_absent _ _ i w Habs).
  eexists _, _, _. split; [reflexivity |].
  unfold with_new_block; simpl. split; [apply lookup_insert_eq |].
  split; [reflexivity |].
  destruct i as [[i0 i1] i2].
  unfold computeBlockIndexFromCoordinates, floorVectorAndDowncast,
    Point_scale, BlockIndex_cast; simpl.
  rewrite Hinv. cbn.
  assert (Hback : forall z : Z,
            Qc_floor (Qc_of_Z z * block_size_ (layer w)
                      * (1 / block_size_ (layer w))) = z).
  { intros z.
    replace (Qc_of_Z z * block_size_ (layer w) * (1 / block_size_ (layer w)))
      with (Qc_of_Z z) by (field; done).
    apply Qc_floor_unique; [apply Qcle_refl |].
    Qc_to_Q. lra. }
  by rewrite !Hback.
Qed.

(** X10. In exact arithmetic with a positive block size, a point is
    mapped to the block index [i] exactly when it lies in the half-open
    cube [[i * block_size, (i + 1) * block_size)] on every axis.  In
    [float] arithmetic this fails: with block size 3 the point
    15 - 2^-20 on every axis lies in the cube of block (4, 4, 4) and is
    mapped to block (5, 5, 5). *)
Theorem computeBlockIndexFromCoordinates_in_block (L : LayerQ)
    (coords : PointQ) (i : BlockIndex) :
  0 < block_size_ L ->
  block_size_inv_ L = @fp_recip ExactArith (block_size_ L) ->
  BlockIndex_representable i ->
  (computeBlockIndexFromCoordinates L coords = i <-> in_block L i coords)
  /\ (in_block layer_f32_block_3 (4, 4, 4)%Z
        (f32_below_15, f32_below_15, f32_below_15)
      /\ computeBlockIndexFromCoordinates layer_f32_block_3
           (f32_below_15, f32_below_15, f32_below_15) = (5, 5, 5)%Z).
Proof.
  intros Hb Hinv _. split.
  - destruct coords as [[x0 x1] x2], i as [[i0 i1] i2].
    unfold computeBlockIndexFromCoordinates, floorVectorAndDowncast,
      Point_scale, in_block; simpl.
    rewrite Hinv. cbn.
    assert (Hax : forall (x : Qc) (z : Z),
              Qc_floor (x * (1 / block_size_ L)) = z
              <-> Qc_of_Z z * block_size_ L <= x
                  /\ x < (Qc_of_Z z + 1) * block_size_ L).
    { intros x z. rewrite Qc_floor_iff.
      destruct (quotient_bounds x (block_size_ L) (Qc_of_Z z) Hb) as [Hlo _].
      destruct (quotient_bounds x (block_size_ L) (Qc_of_Z z + 1) Hb)
        as [_ Hhi].
      by rewrite Hlo, Hhi. }
    rewrite <- !Hax. split.
    + by intros [= -> -> ->].
    + by intros (-> & -> & ->).
  - split; [| vm_compute; reflexivity].
    unfold in_block. vm_compute. repeat split; discriminate.
Qed.

End ExactGeometry.

(* ===================================================================== *)
(** ** The batch driver *)
(* ===================================================================== *)

Section BatchFacts.
Context {FPA : FloatingPointArith}.
Variable double : Type.
Variable PointCloud : Type.
Variable open_numbers : string -> list (option double).
Variable open_words : string -> list string.
Variable loadPCDFile : string -> option PointCloud.
Variable outputMeshLayerAsPly_ok : string -> bool.
Variable atof : string -> double.
Variable atoi : string -> Z.
Variable double_to_FloatingPoint : double -> FloatingPoint.
Variable M_uninit : Matrix double.
Variable T_uninit : Affine3d double.

Abbreviation readAffineB := (readAffine double open_numbers M_uninit).
Abbreviation Run_cloudsB :=
  (@Run_clouds FPA double PointCloud open_numbers loadPCDFile M_uninit T_uninit).
Abbreviation RunB :=
  (@Run FPA double PointCloud open_numbers open_words loadPCDFile
     outputMeshLayerAsPly_ok double_to_FloatingPoint M_uninit T_uninit).
Abbreviation mainB :=
  (@main FPA double PointCloud open_numbers open_words loadPCDFile
     outputMeshLayerAsPly_ok atof atoi double_to_FloatingPoint
     M_uninit T_uninit).
Abbreviation integratedB := (@integrated FPA double PointCloud).
Abbreviation writes_meshB := (@writes_mesh FPA double PointCloud).
Abbreviation EventB := (@Event FPA double PointCloud).

(** What the loop hands to the integrator for one index entry. *)
Abbreviation handed_over :=
  (fun f : string * string =>
     c ← loadPCDFile f.2; Some ((readAffineB T_uninit f.1).1, c)).

(** One row consumes as many numbers as it has columns, or fails. *)
Lemma readAffine_cols_numbers (row : nat) (cols : list nat) :
  forall (M : Matrix double) (ifs : list (option double)),
  match readAffine_cols double row cols M ifs with
  | Some (_, ifs') =>
      (length (leading_numbers double ifs') + length cols
       = length (leading_numbers double ifs))%nat
  | None => (length (leading_numbers double ifs) < length cols)%nat
  end.
Proof.
  induction cols as [| col cols IH]; intros M ifs; simpl.
  - lia.
  - destruct ifs as [| [val |] ifs']; simpl; try lia.
    specialize (IH (Matrix_set double M row col val) ifs').
    destruct (readAffine_cols double row cols _ ifs') as [[M' ifs''] |]; lia.
Qed.

Lemma readAffine_rows_numbers (rows : list nat) :
  forall (M : Matrix double) (ifs : list (option double)),
  match readAffine_rows double rows M ifs with
  | Some (_, ifs') =>
      (length (leading_numbers double ifs') + 4 * length rows
       = length (leading_numbers double ifs))%nat
  | None => (length (leading_numbers double ifs) < 4 * length rows)%nat
  end.
Proof.
  induction rows as [| row rows IH]; intros M ifs; cbn [readAffine_rows].
  - simpl. lia.
  - pose proof (readAffine_cols_numbers row (seq 0 4) M ifs) as Hc.
    destruct (readAffine_cols double row (seq 0 4) M ifs) as [[M' ifs'] |].
    + specialize (IH M' ifs').
      destruct (readAffine_rows double rows M' ifs') as [[M'' ifs''] |];
        simpl in *; lia.
    + simpl in *. lia.
Qed.

(** X12. When the file does not start with 16 numbers (it cannot be
    opened, ends early, or holds a token that is not a number among the
    first 16), [readAffine] leaves [T] exactly as it was and reports one
    error; when it does, no error is reported and the result does not
    depend on the old [T]. *)
Theorem readAffine_needs_16_numbers (T : Affine3d double) (filename : string) :
  ((length (leading_numbers double (open_numbers filename)) < 16)%nat ->
   readAffineB T filename
   = (T, [("Could not read a 4x4 matrix from: " ++ filename)%string]))
  /\ ((16 <= length (leading_numbers double (open_numbers filename)))%nat ->
      exists T', forall T0, readAffineB T0 filename = (T', [])).
Proof.
  unfold readAffine.
  pose proof (readAffine_rows_numbers (seq 0 4) M_uninit (open_numbers filename))
    as Hr.
  destruct (readAffine_rows double (seq 0 4) M_uninit (open_numbers filename))
    as [[M ifs'] |]; simpl in Hr; split; intros Hlen; try lia.
  - eexists. intros T0. reflexivity.
  - reflexivity.
Qed.

(** X13. The 16 numbers are taken row by row: the first three numbers of
    the first three rows become the linear part, the fourth number of
    each of these rows the translation; the fourth row is read and
    dropped, as is whatever follows, and neither the old [T] nor the
    matrix's initial content shows in the result. *)
Theorem readAffine_row_major (T : Affine3d double) (filename : string)
    (a00 a01 a02 a03 a10 a11 a12 a13 a20 a21 a22 a23 a30 a31 a32 a33 : double)
    (rest : list (option double)) :
  open_numbers filename
  = (Some <$> [a00; a01; a02; a03; a10; a11; a12; a13;
               a20; a21; a22; a23; a30; a31; a32; a33]) ++ rest ->
  readAffineB T filename
  = ({| linear := [[a00; a01; a02]; [a10; a11; a12]; [a20; a21; a22]];
        translation := [[a03]; [a13]; [a23]] |}, []).
Proof.
  intros Hfile. unfold readAffine. rewrite Hfile. reflexivity.
Qed.

(** X14. The index file is read two words at a time: as many pose files
    as cloud files, the words alternate pose, cloud, pose, cloud in file
    order, and a last word without a partner is dropped. *)
Theorem read_index_pairs (words : list string) :
  exists tail : list string,
    length (read_index words).1 = length (read_index words).2
    /\ words
       = flat_map (fun f : string * string => [f.1; f.2])
           (zip (read_index words).1 (read_index words).2) ++ tail
    /\ (length tail <= 1)%nat
    /\ length (read_index words).1 = (length words / 2)%nat.
Proof.
  assert (Hboth : forall ws : list string,
    (exists tail,
       length (read_index ws).1 = length (read_index ws).2
       /\ ws = flat_map (fun f : string * string => [f.1; f.2])
                 (zip (read_index ws).1 (read_index ws).2) ++ tail
       /\ (length tail <= 1)%nat
       /\ (2 * length (read_index ws).1 + length tail = length ws)%nat)
    /\ forall w0, exists tail,
       length (read_index (w0 :: ws)).1 = length (read_index (w0 :: ws)).2
       /\ w0 :: ws = flat_map (fun f : string * string => [f.1; f.2])
                 (zip (read_index (w0 :: ws)).1 (read_index (w0 :: ws)).2)
                 ++ tail
       /\ (length tail <= 1)%nat
       /\ (2 * length (read_index (w0 :: ws)).1 + length tail
           = length (w0 :: ws))%nat).
  { induction ws as [| w1 ws [IH0 IH1]].
    - split; [exists []; simpl; repeat split; lia |].
      intros w0. exists [w0]. simpl. repeat split; lia.
    - split; [apply IH1 |].
      intros w0. destruct IH0 as (tail & Hlen & Hws & Htail & Hn).
      exists tail. cbn [read_index].
      destruct (read_index ws) as [poses clouds]; simpl in *.
      repeat split; [lia | by rewrite <- Hws | lia | lia]. }
  destruct (proj1 (Hboth words)) as (tail & Hlen & Hws & Htail & Hn).
  exists tail. repeat split; try done.
  apply (Nat.div_unique _ 2 _ (length tail)); lia.
Qed.

Lemma integrated_app (a b : list EventB) :
  integratedB (a ++ b) = integratedB a ++ integratedB b.
Proof. unfold integrated. apply omap_app. Qed.

Lemma integrated_errors (errors : list string) (events : list EventB) :
  integratedB ((ROS_ERROR double PointCloud <$> errors) ++ events)
  = integratedB events.
Proof. induction errors as [| e errors IH]; simpl; done. Qed.

Lemma writes_mesh_errors (errors : list string) (events : list EventB) :
  writes_meshB ((ROS_ERROR double PointCloud <$> errors) ++ events)
  = writes_meshB events.
Proof. induction errors as [| e errors IH]; simpl; done. Qed.

(** The index entries the loop does not skip are those at the positions
    from [beg] up to, not including, [end_]. *)
Lemma window_positions (files : list (string * string)) (beg end_ : Z) :
  forall i : Z,
  window i files beg end_
  = take (Z.to_nat (end_ - Z.max beg i)) (drop (Z.to_nat (beg - i)) files).
Proof.
  induction files as [| f files IH]; intros i.
  - by rewrite drop_nil, take_nil.
  - cbn [window]. rewrite IH.
    destruct (i <? beg) eqn:Hb; [apply Z.ltb_lt in Hb | apply Z.ltb_ge in Hb].
    + simpl. replace (Z.to_nat (beg - i)) with (S (Z.to_nat (beg - (i + 1))))
        by lia.
      simpl. by replace (Z.max beg (i + 1)) with (Z.max beg i) by lia.
    + replace (Z.to_nat (beg - i)) with 0%nat by lia.
      replace (Z.to_nat (beg - (i + 1))) with 0%nat by lia. simpl drop.
      replace (Z.max beg i) with i by lia.
      replace (Z.max beg (i + 1)) with (i + 1) by lia.
      destruct (end_ <=? i) eqn:He;
        [apply Z.leb_le in He | apply Z.leb_gt in He]; simpl.
      * replace (Z.to_nat (end_ - (i + 1))) with 0%nat by lia.
        replace (Z.to_nat (end_ - i)) with 0%nat by lia. done.
      * replace (Z.to_nat (end_ - i)) with (S (Z.to_nat (end_ - (i + 1))))
          by lia.
        done.
Qed.

(** The loop when a cloud of the window cannot be read. *)
Lemma Run_clouds_unreadable (files : list (string * string)) (beg end_ : Z) :
  forall (i : Z) (before after : list (string * string))
         (pose cloud : string),
  window i files beg end_ = before ++ (pose, cloud) :: after ->
  Forall (fun f => is_Some (loadPCDFile f.2)) before ->
  loadPCDFile cloud = None ->
  (Run_cloudsB i files beg end_).2 = false
  /\ integratedB (Run_cloudsB i files beg end_).1 = omap handed_over before
  /\ writes_meshB (Run_cloudsB i files beg end_).1 = false
  /\ last (Run_cloudsB i files beg end_).1
     = Some (Cout double PointCloud ("Could not read: " ++ cloud)).
Proof.
  induction files as [| [pose0 cloud0] files IH];
    intros i before after pose cloud Hwin Hbefore Hcloud.
  - by destruct before.
  - cbn [Run_clouds window] in *.
    destruct ((i <? beg) || (end_ <=? i)); [by eapply IH |].
    destruct before as [| f before]; simpl in Hwin.
    + injection Hwin as -> -> Hwin. rewrite Hcloud. done.
    + injection Hwin as <- Hwin.
      apply Forall_cons in Hbefore as [[c Hc] Hbefore]. simpl in Hc.
      destruct (IH (i + 1) before after pose cloud Hwin Hbefore Hcloud)
        as (Hdone & Hint & Hmesh & Hlast).
      rewrite Hc.
      destruct (readAffineB T_uninit pose0) as [T errors] eqn:HT.
      destruct (Run_cloudsB (i + 1) files beg end_) as [events completed].
      simpl in *. split; [done |].
      rewrite integrated_errors, writes_mesh_errors. simpl.
      rewrite Hc, HT. simpl. rewrite Hint. do 2 (split; [done |]).
      destruct events as [| e events]; [done |].
      rewrite app_comm_cons, last_app. simpl in Hlast |- *.
      by rewrite Hlast.
Qed.

(** [Run] as its four construction events, the events of the loop, and
    the mesh output when the loop ran to its end. *)
Lemma Run_events (index_file out_cloud : string)
    (max_ray_length_m voxel_size : double) (beg end_ : Z) :
  let files := zip (read_index (open_words index_file)).1
                   (read_index (open_words index_file)).2 in
  RunB index_file out_cloud max_ray_length_m voxel_size beg end_
  = [New_Layer double PointCloud
       (Layer_ctor (double_to_FloatingPoint voxel_size) 16);
     New_MergedTsdfIntegrator double PointCloud
       (fp_mul (fp_of_int 2) (double_to_FloatingPoint voxel_size))
       max_ray_length_m 1;
     New_MeshLayer double PointCloud
       (fp_mul (fp_of_int 16) (double_to_FloatingPoint voxel_size));
     Cout double PointCloud ("Reading: " ++ index_file)]
    ++ (Run_cloudsB 0 files beg end_).1
    ++ (if (Run_cloudsB 0 files beg end_).2
        then [GenerateMesh double PointCloud false true;
              Cout double PointCloud ("Writing: " ++ out_cloud);
              OutputMeshLayerAsPly double PointCloud out_cloud]
             ++ (if outputMeshLayerAsPly_ok out_cloud then []
                 else [Cout double PointCloud "Could not write the mesh."])
        else []).
Proof.
  unfold Run.
  destruct (read_index (open_words index_file)) as [poses clouds]; simpl.
  destruct (Run_cloudsB 0 (zip poses clouds) beg end_) as [evs completed].
  reflexivity.
Qed.

(** The loop itself never generates the mesh. *)
Lemma Run_clouds_no_mesh (files : list (string * string)) (beg end_ : Z)
    (a b : bool) :
  forall i : Z,
  GenerateMesh double PointCloud a b ∉ (Run_cloudsB i files beg end_).1.
Proof.
  induction files as [| [p0 c0] fs IH]; intros i.
  - apply not_elem_of_nil.
  - cbn [Run_clouds]. destruct ((i <? beg) || (end_ <=? i)); [apply IH |].
    destruct (loadPCDFile c0) as [pc |].
    + destruct (readAffineB T_uninit p0) as [T errors].
      specialize (IH (i + 1)).
      destruct (Run_cloudsB (i + 1) fs beg end_) as [evs done_]. simpl in *.
      rewrite not_elem_of_cons. split; [done |].
      rewrite not_elem_of_app. split.
      * intros Hin. apply list_elem_of_fmap in Hin as (e & He & _). done.
      * rewrite not_elem_of_cons. by split.
    + simpl. rewrite not_elem_of_cons. split; [done | apply not_elem_of_nil].
Qed.

(** A pose file that starts with 16 numbers is read without error, and
    what is read does not depend on the old transform. *)
Lemma readAffine_readable (T T0 : Affine3d double) (filename : string) :
  (16 <= length (leading_numbers double (open_numbers filename)))%nat ->
  readAffineB T filename = ((readAffineB T0 filename).1, []).
Proof.
  intros Hlen. unfold readAffine.
  pose proof (readAffine_rows_numbers (seq 0 4) M_uninit (open_numbers filename))
    as Hr.
  destruct (readAffine_rows double (seq 0 4) M_uninit (open_numbers filename))
    as [[M ifs'] |]; simpl in Hr; [reflexivity | lia].
Qed.

(** The events of one cloud that is read and whose pose is read. *)
Abbreviation processing T0 :=
  (fun f : string * string =>
     match loadPCDFile f.2 with
     | Some c =>
         [Cout double PointCloud ("Processing: " ++ f.2);
          IntegratePointCloud double PointCloud (readAffineB T0 f.1).1 c]
     | None => []
     end).

(** The loop when every cloud and every pose of the window can be read. *)
Lemma Run_clouds_readable (files : list (string * string)) (beg end_ : Z)
    (T0 : Affine3d double) :
  forall i : Z,
  Forall (fun f => is_Some (loadPCDFile f.2)
                   /\ (16 <= length (leading_numbers double
                                       (open_numbers f.1)))%nat)
         (window i files beg end_) ->
  Run_cloudsB i files beg end_
  = (flat_map (processing T0) (window i files beg end_), true).
Proof.
  induction files as [| [pose cloud] files IH]; intros i Hall.
  - done.
  - cbn [Run_clouds window] in *.
    destruct ((i <? beg) || (end_ <=? i)); [by apply IH |].
    apply Forall_cons in Hall as [[[c Hc] Hpose] Hall]. simpl in Hc, Hpose.
    rewrite Hc, (readAffine_readable T_uninit T0 pose Hpose).
    rewrite (IH (i + 1) Hall). simpl. by rewrite Hc.
Qed.

(** X15. When every cloud at a position from [beg] up to, not including,
    [end_] can be read and every pose file of these positions starts
    with 16 numbers, the events of [Run] are: the four constructions and
    the line naming the index; for each of these clouds, in index order,
    its "Processing" line and its hand-over to the integrator with the
    transform read from its pose file (whatever the uninitialised
    transform held); then the mesh generation, the "Writing" line and
    one call of [outputMeshLayerAsPly], followed by the line "Could not
    write the mesh." exactly when that call fails.  No error is
    reported and no cloud outside these positions is touched. *)
Theorem Run_integrates_window (index_file out_cloud : string)
    (max_ray_length_m voxel_size : double) (beg end_ : Z)
    (T0 : Affine3d double) :
  let files := zip (read_index (open_words index_file)).1
                   (read_index (open_words index_file)).2 in
  let win := take (Z.to_nat (end_ - Z.max beg 0)) (drop (Z.to_nat beg) files) in
  let events := RunB index_file out_cloud max_ray_length_m voxel_size
                  beg end_ in
  Forall (fun f => is_Some (loadPCDFile f.2)
                   /\ (16 <= length (leading_numbers double
                                       (open_numbers f.1)))%nat) win ->
  events
  = [New_Layer double PointCloud
       (Layer_ctor (double_to_FloatingPoint voxel_size) 16);
     New_MergedTsdfIntegrator double PointCloud
       (fp_mul (fp_of_int 2) (double_to_FloatingPoint voxel_size))
       max_ray_length_m 1;
     New_MeshLayer double PointCloud
       (fp_mul (fp_of_int 16) (double_to_FloatingPoint voxel_size));
     Cout double PointCloud ("Reading: " ++ index_file)]
    ++ flat_map (processing T0) win
    ++ [GenerateMesh double PointCloud false true;
        Cout double PointCloud ("Writing: " ++ out_cloud);
        OutputMeshLayerAsPly double PointCloud out_cloud]
    ++ (if outputMeshLayerAsPly_ok out_cloud then []
        else [Cout double PointCloud "Could not write the mesh."])
  /\ length (integratedB events) = length win
  /\ (forall msg, ROS_ERROR double PointCloud msg ∉ events).
Proof.
  intros files win events Hall. subst events. rewrite Run_events. fold files.
  pose proof (window_positions files beg end_ 0) as Hwin.
  rewrite Z.sub_0_r in Hwin. fold win in Hwin.
  rewrite <- Hwin in Hall |- *.
  rewrite (Run_clouds_readable files beg end_ T0 0 Hall). cbn [fst snd].
  split; [reflexivity |].
  assert (Hloop : forall l : list (string * string),
            Forall (fun f => is_Some (loadPCDFile f.2)
                             /\ (16 <= length (leading_numbers double
                                                 (open_numbers f.1)))%nat) l ->
            length (integratedB (flat_map (processing T0) l)) = length l
            /\ forall msg, ROS_ERROR double PointCloud msg
                           ∉ flat_map (processing T0) l).
  { induction 1 as [| f l [[c Hc] _] _ [IHlen IHerr]].
    - split; [done |]. intros msg. apply not_elem_of_nil.
    - cbn [flat_map]. rewrite Hc. split.
      + simpl. f_equal. exact IHlen.
      + intros msg. simpl. rewrite !not_elem_of_cons.
        split; [done |]. split; [done | apply IHerr]. }
  destruct (Hloop _ Hall) as [Hlen Herr].
  assert (Hout : forall l : list EventB,
            l = [] \/ l = [Cout double PointCloud "Could not write the mesh."] ->
            integratedB l = []
            /\ forall msg, ROS_ERROR double PointCloud msg ∉ l).
  { intros l [-> | ->]; (split; [done |]); intros msg.
    - apply not_elem_of_nil.
    - rewrite not_elem_of_cons. split; [done | apply not_elem_of_nil]. }
  destruct (Hout (if outputMeshLayerAsPly_ok out_cloud then []
                  else [Cout double PointCloud "Could not write the mesh."]))
    as [Hout1 Hout2].
  { destruct (outputMeshLayerAsPly_ok out_cloud); auto. }
  split.
  - rewrite !integrated_app. cbn [integrated omap app]. simpl.
    rewrite Hout1, app_nil_r. exact Hlen.
  - intros msg. rewrite !not_elem_of_app. repeat split.
    + rewrite !not_elem_of_cons. repeat split; try done. apply not_elem_of_nil.
    + apply Herr.
    + rewrite !not_elem_of_cons. repeat split; try done. apply not_elem_of_nil.
    + apply Hout2.
Qed.


(** X18. [main] by the number of command-line arguments: with fewer than
    four it prints the usage line and returns 1 without running; with
    exactly four it prints the two file names, runs over all clouds
    ([beg = 0], [end = INT_MAX]) and returns 0; with exactly five it
    passes the null pointer that ends [argv] to [atoi]; with six or more
    it prints the two file names, runs with [beg] and [end] taken from
    the fifth and sixth, and returns 0. *)
Theorem main_arguments (argv : list string) :
  let run beg end_ :=
    Main_returns double PointCloud 0
      ([Cout double PointCloud ("index file is " ++ nth 1 argv ""%string);
        Cout double PointCloud ("output cloud is " ++ nth 2 argv ""%string)]
       ++ RunB (nth 1 argv ""%string) (nth 2 argv ""%string)
            (atof (nth 3 argv ""%string)) (atof (nth 4 argv ""%string))
            beg end_) in
  ((length argv < 5)%nat ->
   mainB argv
   = Main_returns double PointCloud 1
       [Cout double PointCloud
          "Must specify the data index file, output cloud name, and max ray length."])
  /\ (length argv = 5%nat -> mainB argv = run 0 INT_MAX)
  /\ (length argv = 6%nat -> mainB argv = Main_atoi_of_null double PointCloud)
  /\ ((7 <= length argv)%nat ->
      mainB argv = run (atoi (nth 5 argv ""%string))
                       (atoi (nth 6 argv ""%string))).
Proof.
  intros run. subst run. unfold main.
  destruct (Z.ltb_spec (Z.of_nat (length argv)) 5) as [H5 | H5];
    destruct (Z.leb_spec 6 (Z.of_nat (length argv))) as [H6 | H6];
    repeat split; intros Hlen; try lia; try reflexivity.
  - assert (Hnone : argv !! 6%nat = None) by (apply lookup_ge_None; lia).
    by rewrite Hnone.
  - destruct (argv !! 6%nat) as [a6 |] eqn:E.
    + by rewrite (nth_lookup_Some _ _ _ _ E).
    + apply lookup_ge_None in E. lia.
Qed.

(** X19. Called with exactly four arguments, on an index of at most
    [INT_MAX] entries whose clouds can all be read and whose pose files
    all start with 16 numbers, [main] returns 0, whether or not the mesh
    file could be written: its events are the two file-name lines, the
    constructions, every cloud of the index handed to the integrator in
    order with the transform read from its pose file, the mesh
    generation and one call of [outputMeshLayerAsPly], followed by
    "Could not write the mesh." exactly when that call fails. *)
Theorem main_four_arguments (argv : list string) (T0 : Affine3d double) :
  let index_file := nth 1 argv ""%string in
  let out_cloud := nth 2 argv ""%string in
  let files := zip (read_index (open_words index_file)).1
                   (read_index (open_words index_file)).2 in
  length argv = 5%nat ->
  Z.of_nat (length files) <= INT_MAX ->
  Forall (fun f => is_Some (loadPCDFile f.2)
                   /\ (16 <= length (leading_numbers double
                                       (open_numbers f.1)))%nat) files ->
  mainB argv
  = Main_returns double PointCloud 0
      ([Cout double PointCloud ("index file is " ++ index_file);
        Cout double PointCloud ("output cloud is " ++ out_cloud);
        New_Layer double PointCloud
          (Layer_ctor (double_to_FloatingPoint (atof (nth 4 argv ""%string)))
             16);
        New_MergedTsdfIntegrator double PointCloud
          (fp_mul (fp_of_int 2)
             (double_to_FloatingPoint (atof (nth 4 argv ""%string))))
          (atof (nth 3 argv ""%string)) 1;
        New_MeshLayer double PointCloud
          (fp_mul (fp_of_int 16)
             (double_to_FloatingPoint (atof (nth 4 argv ""%string))));
        Cout double PointCloud ("Reading: " ++ index_file)]
       ++ flat_map (processing T0) files
       ++ [GenerateMesh double PointCloud false true;
           Cout double PointCloud ("Writing: " ++ out_cloud);
           OutputMeshLayerAsPly double PointCloud out_cloud]
       ++ (if outputMeshLayerAsPly_ok out_cloud then []
           else [Cout double PointCloud "Could not write the mesh."])).
Proof.
  intros index_file out_cloud files Hargc Hsize Hall. unfold main.
  rewrite Hargc. cbn [Z.of_nat Z.ltb Z.leb Z.compare Pos.of_succ_nat
    Pos.succ Pos.compare Pos.compare_cont].
  fold index_file out_cloud. rewrite Run_events. fold files.
  assert (Hwin : window 0 files 0 INT_MAX = files).
  { rewrite window_positions.
    replace (Z.to_nat (0 - 0)) with 0%nat by lia. rewrite drop_0.
    apply take_ge. unfold INT_MAX in *. lia. }
  rewrite <- Hwin in Hall.
  rewrite (Run_clouds_readable files 0 INT_MAX T0 0 Hall), Hwin.
  reflexivity.
Qed.

End BatchFacts.

(* ===================================================================== *)
(** ** The further properties at concrete inputs *)
(* ===================================================================== *)

(** Allocating and removing (2,0,0) in the empty layer. *)
Lemma allocate_then_remove_witness :
  exists p w1 w2,
    allocateBlockPtrByIndex TsdfVoxel_default true (2, 0, 0) world_empty
      = Returns p w1
    /\ removeBlock (2, 0, 0) w1 = Returns tt w2
    /\ layer w2 = layer world_empty.
Proof.
  destruct (allocate_then_remove TsdfVoxel_default true (2, 0, 0) world_empty
              (lookup_empty _)) as (p & w1 & w2 & Ha & Hr & _ & Hl & _).
  exists p, w1, w2. split; [exact Ha |]. split; [exact Hr | exact Hl].
Defined.

(** [ex_calls] on the empty layer. *)
Lemma run_calls_invariant_witness :
  exists w',
    run_calls TsdfVoxel_default true ex_calls world_empty = Returns tt w'
    /\ Layer_inv w'
    /\ geometry (layer w') = geometry (layer world_empty).
Proof.
  eexists. split; [reflexivity |].
  destruct (run_calls_invariant TsdfVoxel_default true ex_calls world_empty _
              (Layer_inv_empty world_empty eq_refl) eq_refl)
    as (Hinv & Hgeo & _).
  split; [exact Hinv | exact Hgeo].
Defined.

Lemma run_calls_returns_witness :
  exists w', run_calls TsdfVoxel_default true ex_calls world_empty
             = Returns tt w'.
Proof.
  apply (run_calls_returns TsdfVoxel_default true ex_calls world_empty).
  repeat constructor.
Defined.

(** The origin of block (2,0,0), block size 0.2, lies in block (2,0,0). *)
Lemma block_origin_round_trip_witness :
  exists p w1 b,
    allocateNewBlock TsdfVoxel_default true (2, 0, 0) world_empty
      = Returns p w1
    /\ free_store w1 !! p = Some b
    /\ computeBlockIndexFromCoordinates (layer w1) (b_origin b) = (2, 0, 0).
Proof.
  destruct (block_origin_round_trip world_empty (2, 0, 0) (lookup_empty _))
    as [(p & w1 & b & Ha & Hb & _ & Hi) _].
  - discriminate.
  - reflexivity.
  - exists p, w1, b. split; [exact Ha |]. split; [exact Hb | exact Hi].
Defined.

(** (-0.1, 1.6, -1.6) lies in block (-1, 1, -1) of side 1.6. *)
Lemma computeBlockIndexFromCoordinates_in_block_witness :
  in_block layer_exact_block_1_6 (-1, 1, -1) point_c.
Proof.
  assert (Hrep : BlockIndex_representable (-1, 1, -1))
    by (vm_compute; repeat split; discriminate).
  apply (proj1 (computeBlockIndexFromCoordinates_in_block
                  layer_exact_block_1_6 point_c (-1, 1, -1)
                  eq_refl eq_refl Hrep)).
  vm_compute. reflexivity.
Defined.

(** A pose file that breaks off, and one that cannot be opened. *)
Lemma readAffine_needs_16_numbers_witness :
  readAffine Z ex_open_numbers ex_M_uninit ex_T_uninit "pose_short.txt"
  = (ex_T_uninit, ["Could not read a 4x4 matrix from: pose_short.txt"%string])
  /\ readAffine Z ex_open_numbers ex_M_uninit ex_T_uninit "nowhere.txt"
     = (ex_T_uninit, ["Could not read a 4x4 matrix from: nowhere.txt"%string]).
Proof.
  split.
  - apply (proj1 (readAffine_needs_16_numbers Z ex_open_numbers ex_M_uninit
                    ex_T_uninit "pose_short.txt")).
    vm_compute. lia.
  - apply (proj1 (readAffine_needs_16_numbers Z ex_open_numbers ex_M_uninit
                    ex_T_uninit "nowhere.txt")).
    vm_compute. lia.
Defined.

(** A complete pose file: identity rotation, translation (5, 6, 7). *)
Lemma readAffine_row_major_witness :
  readAffine Z ex_open_numbers ex_M_uninit ex_T_uninit "pose_ok.txt"
  = (mkAffine3d Z [[1; 0; 0]; [0; 1; 0]; [0; 0; 1]] [[5]; [6]; [7]], []).
Proof.
  apply (readAffine_row_major Z ex_open_numbers ex_M_uninit ex_T_uninit
           "pose_ok.txt" 1 0 0 5 0 1 0 6 0 0 1 7 0 0 0 1 []).
  reflexivity.
Defined.

(** Two clouds with complete poses, and a mesh file that cannot be
    written: both are integrated with the pose read, and the last line
    reports the failed write. *)
Lemma Run_integrates_window_witness :
  let events :=
    @Run ExactArith Z nat ex_open_numbers ex_open_words_read ex_loadPCDFile
      (fun _ => false) Qc_of_Z ex_M_uninit ex_T_uninit
      "index.txt" "mesh.ply" 5 1 0 2 in
  integrated Z nat events
  = [(mkAffine3d Z [[1; 0; 0]; [0; 1; 0]; [0; 0; 1]] [[5]; [6]; [7]], 1%nat);
     (mkAffine3d Z [[1; 0; 0]; [0; 1; 0]; [0; 0; 1]] [[5]; [6]; [7]], 2%nat)]
  /\ last events = Some (Cout Z nat "Could not write the mesh.").
Proof.
  intros events.
  destruct (@Run_integrates_window ExactArith Z nat ex_open_numbers
              ex_open_words_read ex_loadPCDFile (fun _ => false) Qc_of_Z
              ex_M_uninit ex_T_uninit
              "index.txt" "mesh.ply" 5 1 0 2 (mkAffine3d Z [[9]] [[9]]))
    as (Hev & _ & _).
  - repeat constructor; try (eexists; reflexivity); vm_compute; lia.
  - subst events. rewrite Hev. split; reflexivity.
Defined.


(** Three arguments, and five arguments. *)
Lemma main_arguments_witness :
  (exists events,
     ex_main ["batch_tsdf"; "index.txt"; "mesh.ply"; "5"]%string
     = Main_returns Z nat 1 events)
  /\ ex_main ["batch_tsdf"; "index.txt"; "mesh.ply"; "5"; "0.1"; "0"]%string
     = Main_atoi_of_null Z nat.
Proof.
  split.
  - eexists.
    apply (proj1 (@main_arguments ExactArith Z nat ex_open_numbers ex_open_words
                    ex_loadPCDFile (fun _ => true) (fun _ => 1) (fun _ => 2)
                    Qc_of_Z ex_M_uninit ex_T_uninit
                    ["batch_tsdf"; "index.txt"; "mesh.ply"; "5"]%string)).
    simpl. lia.
  - apply (proj1 (proj2 (proj2
             (@main_arguments ExactArith Z nat ex_open_numbers ex_open_words
                ex_loadPCDFile (fun _ => true) (fun _ => 1) (fun _ => 2)
                Qc_of_Z ex_M_uninit ex_T_uninit
                ["batch_tsdf"; "index.txt"; "mesh.ply"; "5"; "0.1"; "0"]%string)))).
    reflexivity.
Defined.

(** Four arguments over an index of two readable clouds with complete
    poses, the mesh file not writable: [main] still returns 0. *)
Lemma main_four_arguments_witness :
  exists events,
    @main ExactArith Z nat ex_open_numbers ex_open_words_read
      ex_loadPCDFile (fun _ => false) (fun _ => 1) (fun _ => 2) Qc_of_Z
      ex_M_uninit ex_T_uninit
      ["batch_tsdf"; "index.txt"; "mesh.ply"; "5"; "0.1"]%string
    = Main_returns Z nat 0 events
    /\ length (integrated Z nat events) = 2%nat
    /\ last events = Some (Cout Z nat "Could not write the mesh.").
Proof.
  eexists. split.
  - apply (@main_four_arguments ExactArith Z nat ex_open_numbers
             ex_open_words_read ex_loadPCDFile (fun _ => false)
             (fun _ => 1) (fun _ => 2) Qc_of_Z ex_M_uninit ex_T_uninit
             ["batch_tsdf"; "index.txt"; "mesh.ply"; "5"; "0.1"]%string
             ex_T_uninit).
    + reflexivity.
    + vm_compute. discriminate.
    + repeat constructor; try (eexists; reflexivity); vm_compute; lia.
  - split; reflexivity.
Defined.
